(** * A textile-store chatbot: fallback responder and sentiment thresholds

    This development embeds, as Rocq functions, the hand-written reply logic
    of the repository:

    - [App.fallback_get_response] and [App.analyze_sentiment] of [app.py];
    - [Main.fallback_get_response] and [Main.get_sentiment_label] of
      [main.py];
    - the part of Python's [difflib] that [app.py] calls
      ([get_close_matches] with [n=1], hence [SequenceMatcher.ratio],
      [quick_ratio], [real_quick_ratio], [find_longest_match] and
      [get_matching_blocks]) and the [max] behind [heapq.nlargest(1, ...)].

    Conventions of the embedding.

    - A Python [str] is the list of its code points ([list N]); literals are
      written as Rocq strings and decoded from UTF-8 by [py].
    - Python integers are [Z]; list indexing is fallible ([IndexError]) and
      accepts negative indices as Python does.
    - A Python [dict] is an association list in insertion order; assigning
      to a key that is already present keeps its position.
    - Computations that may raise or loop live in the monad [result]:
      [Ok v], [Raise e], or [Diverge] when the fuel given to a [while] loop
      is used up.  The fuel is always chosen from the sizes of the inputs
      and is shown below to be enough: no call ever ends in [Diverge].
    - Floating-point similarity scores are modelled by the rationals they
      round: a score is [2*M/T] with [M <= T] string lengths, and for
      [T < 2^26] two such quotients, or one of them and the literal [0.6],
      compare as doubles exactly as they compare as rationals.
    - [str.strip] follows CPython's table of white space.  [str.lower] is
      fixed on ASCII text only, which is all the reply table and the keyword
      list contain; on other text it is a parameter ([str_lower]) about
      which nothing more is assumed. *)

From Stdlib Require Import String Ascii.
From Stdlib Require Import List Bool Arith NArith ZArith QArith Lia Lqa Permutation.
Import ListNotations.

(* ------------------------------------------------------------------ *)
(** ** Python values and builtins *)

Module Py.

(** Exceptions the modelled code can raise. *)
Inductive exn : Type :=
| IndexError
| KeyError
| ValueError.

(** Outcome of running a piece of Python. *)
Inductive result (A : Type) : Type :=
| Ok (a : A)
| Raise (e : exn)
| Diverge.

Arguments Ok {A} a.
Arguments Raise {A} e.
Arguments Diverge {A}.

Definition bind {A B : Type} (m : result A) (f : A -> result B) : result B :=
  match m with
  | Ok a => f a
  | Raise e => Raise e
  | Diverge => Diverge
  end.

Declare Scope py_scope.
Delimit Scope py_scope with py.

Notation "x <- m ;; k" := (bind m (fun x => k))
  (at level 61, m at next level, right associativity) : py_scope.
Notation "' pat <- m ;; k" := (bind m (fun x => match x with pat => k end))
  (at level 61, pat pattern, m at next level, right associativity) : py_scope.

Local Open Scope py_scope.
Local Open Scope Z_scope.

(** [for x in xs: s = body(s, x)] *)
Fixpoint for_each {A S : Type} (xs : list A) (s : S)
    (body : S -> A -> result S) : result S :=
  match xs with
  | [] => Ok s
  | x :: rest => s' <- body s x ;; for_each rest s' body
  end.

(** [while cond(s): s = body(s)], cut off after [fuel] tests of [cond]. *)
Fixpoint while {S : Type} (fuel : nat) (cond : S -> result bool)
    (body : S -> result S) (s : S) : result S :=
  match fuel with
  | O => Diverge
  | Datatypes.S fuel' =>
      c <- cond s ;;
      if c then s' <- body s ;; while fuel' cond body s' else Ok s
  end.

(** *** Strings *)

Definition char : Type := N.
Definition str : Type := list char.

(** UTF-8 decoding of the bytes of a Rocq string literal. *)
Fixpoint utf8_decode (bs : list N) : str :=
  match bs with
  | [] => []
  | b0 :: r0 =>
      if (b0 <? 128)%N then b0 :: utf8_decode r0
      else
        match r0 with
        | [] => [b0]
        | b1 :: r1 =>
            if (b0 <? 224)%N then
              ((b0 mod 32) * 64 + b1 mod 64)%N :: utf8_decode r1
            else
              match r1 with
              | [] => [b0; b1]
              | b2 :: r2 =>
                  if (b0 <? 240)%N then
                    ((b0 mod 16) * 4096 + (b1 mod 64) * 64 + b2 mod 64)%N
                      :: utf8_decode r2
                  else
                    match r2 with
                    | [] => [b0; b1; b2]
                    | b3 :: r3 =>
                        ((b0 mod 8) * 262144 + (b1 mod 64) * 4096
                         + (b2 mod 64) * 64 + b3 mod 64)%N :: utf8_decode r3
                    end
              end
        end
  end.

Definition py (s : string) : str :=
  utf8_decode (map N_of_ascii (list_ascii_of_string s)).

Arguments py s%_string.

Definition len {A : Type} (l : list A) : Z := Z.of_nat (length l).

(** Python's [==] on the key types used below. *)
Class PyEq (K : Type) : Type := py_eqb : K -> K -> bool.

#[export] Instance PyEq_char : PyEq char := N.eqb.
#[export] Instance PyEq_int : PyEq Z := Z.eqb.

Fixpoint str_eqb (s t : str) : bool :=
  match s, t with
  | [], [] => true
  | c :: s', d :: t' => N.eqb c d && str_eqb s' t'
  | _, _ => false
  end.

#[export] Instance PyEq_str : PyEq str := str_eqb.

(** [s > t] on strings: code point by code point, a proper prefix being
    smaller. *)
Fixpoint str_gtb (s t : str) : bool :=
  match s, t with
  | [], _ => false
  | _ :: _, [] => true
  | c :: s', d :: t' =>
      if N.eqb c d then str_gtb s' t' else (d <? c)%N
  end.

(** [Py_UNICODE_ISSPACE]: the characters [str.strip()] removes. *)
Definition isspace (c : char) : bool :=
  ((9 <=? c) && (c <=? 13) || (28 <=? c) && (c <=? 32)
   || (c =? 133) || (c =? 160) || (c =? 5760)
   || (8192 <=? c) && (c <=? 8202)
   || (c =? 8232) || (c =? 8233) || (c =? 8239) || (c =? 8287)
   || (c =? 12288))%N.

Fixpoint lstrip (s : str) : str :=
  match s with
  | [] => []
  | c :: s' => if isspace c then lstrip s' else s
  end.

Definition rstrip (s : str) : str := rev (lstrip (rev s)).

Definition strip (s : str) : str := rstrip (lstrip s).

(** [str.lower] on ASCII text. *)
Definition ascii_lower_char (c : char) : char :=
  if ((65 <=? c) && (c <=? 90))%N then (c + 32)%N else c.

Definition ascii_lower (s : str) : str := map ascii_lower_char s.

Definition is_ascii (c : char) : Prop := (c < 128)%N.

Definition is_asciib (c : char) : bool := (c <? 128)%N.

Fixpoint startswith (s prefix : str) : bool :=
  match prefix, s with
  | [], _ => true
  | _ :: _, [] => false
  | p :: prefix', c :: s' => N.eqb p c && startswith s' prefix'
  end.

(** [sub in s] *)
Fixpoint contains (sub s : str) : bool :=
  startswith s sub
  || match s with
     | [] => false
     | _ :: s' => contains sub s'
     end.

(** *** Lists *)

(** [l[i]], negative indices counting from the end. *)
Definition list_getitem {A : Type} (l : list A) (i : Z) : result A :=
  let i' := if i <? 0 then i + len l else i in
  if (i' <? 0) || (len l <=? i') then Raise IndexError
  else
    match nth_error l (Z.to_nat i') with
    | Some x => Ok x
    | None => Raise IndexError
    end.

(** [range(start, stop, step)] for a positive [step]. *)
Definition py_range (start stop step : Z) : list Z :=
  map (fun n => start + step * Z.of_nat n)
      (seq 0 (Z.to_nat ((stop - start + step - 1) / step))).

Fixpoint enumerate_from {A : Type} (i : Z) (l : list A) : list (Z * A) :=
  match l with
  | [] => []
  | x :: l' => (i, x) :: enumerate_from (i + 1) l'
  end.

Definition enumerate {A : Type} (l : list A) : list (Z * A) :=
  enumerate_from 0 l.

Definition sum (l : list Z) : Z := fold_left Z.add l 0.

(** *** Dictionaries *)

Definition dict (K V : Type) : Type := list (K * V).

Fixpoint dict_lookup {K V : Type} `{PyEq K} (d : dict K V) (k : K)
    : option V :=
  match d with
  | [] => None
  | (k', v) :: d' => if py_eqb k' k then Some v else dict_lookup d' k
  end.

(** [k in d] *)
Definition dict_contains {K V : Type} `{PyEq K} (d : dict K V) (k : K)
    : bool :=
  match dict_lookup d k with
  | Some _ => true
  | None => false
  end.

(** [d[k]] *)
Definition dict_getitem {K V : Type} `{PyEq K} (d : dict K V) (k : K)
    : result V :=
  match dict_lookup d k with
  | Some v => Ok v
  | None => Raise KeyError
  end.

(** [d.get(k, default)] *)
Definition dict_get {K V : Type} `{PyEq K} (d : dict K V) (k : K)
    (default : V) : V :=
  match dict_lookup d k with
  | Some v => v
  | None => default
  end.

(** [d[k] = v] *)
Fixpoint dict_set {K V : Type} `{PyEq K} (d : dict K V) (k : K) (v : V)
    : dict K V :=
  match d with
  | [] => [(k, v)]
  | (k', v') :: d' =>
      if py_eqb k' k then (k', v) :: d' else (k', v') :: dict_set d' k v
  end.

(** [del d[k]] for a key that is present. *)
Fixpoint dict_del {K V : Type} `{PyEq K} (d : dict K V) (k : K)
    : dict K V :=
  match d with
  | [] => []
  | (k', v') :: d' =>
      if py_eqb k' k then d' else (k', v') :: dict_del d' k
  end.

Definition dict_keys {K V : Type} (d : dict K V) : list K := map fst d.

Definition dict_items {K V : Type} (d : dict K V) : list (K * V) := d.

End Py.

Import Py.
Local Open Scope py_scope.

(* ------------------------------------------------------------------ *)
(** ** [difflib]: the similarity ratio and [get_close_matches] *)

Module Difflib.

Local Open Scope Z_scope.

(** A matching block [(i, j, k)]: [a[i:i+k] == b[j:j+k]]. *)
Definition block : Type := (Z * Z * Z)%type.

Definition block_size (x : block) : Z := snd x.

(** [_calculate_ratio]: [2.0 * matches / length], or [1.0] for two empty
    sequences. *)
Definition calculate_ratio (matches length : Z) : Q :=
  if length =? 0 then 1%Q else (2 * matches) # (Z.to_pos length).

(** [SequenceMatcher.__chain_b] with [isjunk=None], [autojunk=True]: the
    positions of every element of [b], elements occurring more than
    [n // 100 + 1] times being dropped once [b] has 200 elements. *)
Definition chain_b (b : str) : dict char (list Z) :=
  let b2j :=
    fold_left (fun (b2j : dict char (list Z)) '(i, elt) =>
                 dict_set b2j elt (dict_get b2j elt [] ++ [i]))
              (enumerate b) [] in
  let n := len b in
  if 200 <=? n then
    let ntest := n / 100 + 1 in
    let popular :=
      map fst (filter (fun '(elt, idxs) => len idxs >? ntest)
                      (dict_items b2j)) in
    fold_left (fun b2j elt => dict_del b2j elt) popular b2j
  else b2j.

(** [bjunk] is the empty set when [isjunk] is [None]. *)
Definition isbjunk (c : char) : bool := false.

(** The body of [for j in b2j.get(a[i], nothing)], with its [continue] and
    [break]. *)
Fixpoint longest_inner (i blo bhi : Z) (j2len : dict Z Z) (idxs : list Z)
    (newj2len : dict Z Z) (best : block) : dict Z Z * block :=
  match idxs with
  | [] => (newj2len, best)
  | j :: rest =>
      if j <? blo then longest_inner i blo bhi j2len rest newj2len best
      else if j >=? bhi then (newj2len, best)
      else
        let k := dict_get j2len (j - 1) 0 + 1 in
        let newj2len := dict_set newj2len j k in
        let '(besti, bestj, bestsize) := best in
        let best :=
          if k >? bestsize then (i - k + 1, j - k + 1, k)
          else (besti, bestj, bestsize) in
        longest_inner i blo bhi j2len rest newj2len best
  end.

(** Fuel for the loops over positions of [a]; see [ratio_total]. *)
Definition loop_fuel (a : str) : nat := 2 * length a + 2.

(** One of the four [while] loops that grow the best block: to the left
    when [left] holds, else to the right; over junk elements when [junk]
    holds, else over the others. *)
Definition extend_cond (a b : str) (alo ahi blo bhi : Z) (left junk : bool)
    (best : block) : result bool :=
  let '(besti, bestj, bestsize) := best in
  let inside :=
    if left then (besti >? alo) && (bestj >? blo)
    else (besti + bestsize <? ahi) && (bestj + bestsize <? bhi) in
  if inside then
    let ia := if left then besti - 1 else besti + bestsize in
    let ib := if left then bestj - 1 else bestj + bestsize in
    y <- list_getitem b ib ;;
    if Bool.eqb (isbjunk y) junk then
      x <- list_getitem a ia ;;
      y' <- list_getitem b ib ;;
      Ok (py_eqb x y')
    else Ok false
  else Ok false.

Definition extend_body (left : bool) (best : block) : result block :=
  let '(besti, bestj, bestsize) := best in
  if left then Ok (besti - 1, bestj - 1, bestsize + 1)
  else Ok (besti, bestj, bestsize + 1).

Definition extend (a b : str) (alo ahi blo bhi : Z) (left junk : bool)
    (best : block) : result block :=
  while (loop_fuel a) (extend_cond a b alo ahi blo bhi left junk)
        (extend_body left) best.

(** The body of [for i in range(alo, ahi)]: one row of the table of run
    lengths. *)
Definition longest_row (a : str) (b2j : dict char (list Z)) (blo bhi : Z)
    (st : dict Z Z * block) (i : Z) : result (dict Z Z * block) :=
  let '(j2len, best) := st in
  ai <- list_getitem a i ;;
  Ok (longest_inner i blo bhi j2len (dict_get b2j ai []) [] best).

(** [SequenceMatcher.find_longest_match(alo, ahi, blo, bhi)] *)
Definition find_longest_match (a b : str) (b2j : dict char (list Z))
    (alo ahi blo bhi : Z) : result block :=
  st <- for_each (py_range alo ahi 1) ([], (alo, blo, 0))
                 (longest_row a b2j blo bhi) ;;
  let best := snd st in
  best <- extend a b alo ahi blo bhi true false best ;;
  best <- extend a b alo ahi blo bhi false false best ;;
  best <- extend a b alo ahi blo bhi true true best ;;
  best <- extend a b alo ahi blo bhi false true best ;;
  Ok best.

(** The work list of [get_matching_blocks]; the head of the list is the
    element [queue.pop()] returns. *)
Definition region : Type := (Z * Z * Z * Z)%type.

Definition blocks_cond (st : list region * list block) : result bool :=
  Ok (negb (match fst st with [] => true | _ :: _ => false end)).

Definition blocks_body (a b : str) (b2j : dict char (list Z))
    (st : list region * list block) : result (list region * list block) :=
  let '(queue, matching_blocks) := st in
  match queue with
  | [] => Raise IndexError
  | (alo, ahi, blo, bhi) :: queue =>
      x <- find_longest_match a b b2j alo ahi blo bhi ;;
      let '(i, j, k) := x in
      if negb (k =? 0) then
        let matching_blocks := matching_blocks ++ [x] in
        let queue :=
          if (alo <? i) && (blo <? j) then (alo, i, blo, j) :: queue
          else queue in
        let queue :=
          if (i + k <? ahi) && (j + k <? bhi)
          then (i + k, ahi, j + k, bhi) :: queue
          else queue in
        Ok (queue, matching_blocks)
      else Ok (queue, matching_blocks)
  end.

(** [x < y] on blocks, compared as tuples. *)
Definition block_ltb (x y : block) : bool :=
  let '(i1, j1, k1) := x in
  let '(i2, j2, k2) := y in
  if negb (i1 =? i2) then i1 <? i2
  else if negb (j1 =? j2) then j1 <? j2
  else k1 <? k2.

Fixpoint insert_sorted (x : block) (l : list block) : list block :=
  match l with
  | [] => [x]
  | y :: l' =>
      if block_ltb x y then x :: y :: l' else y :: insert_sorted x l'
  end.

(** [matching_blocks.sort()] *)
Definition sort_blocks (l : list block) : list block :=
  fold_left (fun sorted x => insert_sorted x sorted) l [].

(** The body of the loop that merges adjacent blocks. *)
Definition collapse_step (st : block * list block) (x : block)
    : block * list block :=
  let '((i1, j1, k1), non_adjacent) := st in
  let '(i2, j2, k2) := x in
  if (i1 + k1 =? i2) && (j1 + k1 =? j2) then
    ((i1, j1, k1 + k2), non_adjacent)
  else
    ((i2, j2, k2),
     if negb (k1 =? 0) then non_adjacent ++ [(i1, j1, k1)]
     else non_adjacent).

Definition collapse (matching_blocks : list block) (la lb : Z)
    : list block :=
  let '((i1, j1, k1), non_adjacent) :=
    fold_left collapse_step matching_blocks ((0, 0, 0), []) in
  let non_adjacent :=
    if negb (k1 =? 0) then non_adjacent ++ [(i1, j1, k1)]
    else non_adjacent in
  non_adjacent ++ [(la, lb, 0)].

(** [SequenceMatcher.get_matching_blocks()]: collect the blocks from the
    work list, sort them, merge adjacent ones and close the list with the
    sentinel [(la, lb, 0)]. *)
Definition get_matching_blocks (a b : str) : result (list block) :=
  let la := len a in
  let lb := len b in
  st <- while (loop_fuel a) blocks_cond (blocks_body a b (chain_b b))
              ([(0, la, 0, lb)], []) ;;
  let matching_blocks := sort_blocks (snd st) in
  Ok (collapse matching_blocks la lb).

(** [SequenceMatcher(None, a, b).ratio()] *)
Definition ratio (a b : str) : result Q :=
  blocks <- get_matching_blocks a b ;;
  let matches := sum (map block_size blocks) in
  Ok (calculate_ratio matches (len a + len b)).

(** [fullbcount]: how many times each element occurs in [b]. *)
Definition fullbcount (b : str) : dict char Z :=
  fold_left (fun (d : dict char Z) elt => dict_set d elt (dict_get d elt 0 + 1))
            b [].

Definition quick_step (fbc : dict char Z) (st : dict char Z * Z)
    (elt : char) : dict char Z * Z :=
  let '(avail, matches) := st in
  let numb :=
    if dict_contains avail elt then dict_get avail elt 0
    else dict_get fbc elt 0 in
  let avail := dict_set avail elt (numb - 1) in
  (avail, if numb >? 0 then matches + 1 else matches).

Definition quick_matches (a b : str) : Z :=
  snd (fold_left (quick_step (fullbcount b)) a ([], 0)).

(** [SequenceMatcher(None, a, b).quick_ratio()] *)
Definition quick_ratio (a b : str) : Q :=
  calculate_ratio (quick_matches a b) (len a + len b).

(** [SequenceMatcher(None, a, b).real_quick_ratio()] *)
Definition real_quick_ratio (a b : str) : Q :=
  let la := len a in
  let lb := len b in
  calculate_ratio (Z.min la lb) (la + lb).

(** [(s1, x1) > (s2, x2)] on (score, word) tuples: decided by the first
    component in which the tuples differ. *)
Definition scored_gtb (p q : Q * str) : bool :=
  let '(s1, x1) := p in
  let '(s2, x2) := q in
  if negb (Qeq_bool s1 s2) then negb (Qle_bool s1 s2)
  else if negb (py_eqb x1 x2) then str_gtb x1 x2
  else false.

(** [max(it, default=sentinel)]: the first of the greatest items. *)
Fixpoint max_from (cur : Q * str) (l : list (Q * str)) : Q * str :=
  match l with
  | [] => cur
  | item :: l' => max_from (if scored_gtb item cur then item else cur) l'
  end.

(** [heapq.nlargest(1, result)] *)
Definition nlargest1 (l : list (Q * str)) : list (Q * str) :=
  match l with
  | [] => []
  | first :: l' => [max_from first l']
  end.

(** [get_close_matches(word, possibilities, n=1, cutoff)] *)
Definition get_close_matches (word : str) (possibilities : list str)
    (cutoff : Q) : result (list str) :=
  if negb (Qle_bool 0 cutoff && Qle_bool cutoff 1) then Raise ValueError
  else
    result <-
      for_each possibilities []
        (fun result x =>
           if Qle_bool cutoff (real_quick_ratio x word) then
             if Qle_bool cutoff (quick_ratio x word) then
               r <- ratio x word ;;
               if Qle_bool cutoff r then
                 r' <- ratio x word ;;
                 Ok (result ++ [(r', x)])
               else Ok result
             else Ok result
           else Ok result) ;;
    Ok (map snd (nlargest1 result)).

End Difflib.

(* ------------------------------------------------------------------ *)
(** ** [app.py] *)

Module App.

(** The conversation list: prompts at even positions, each followed by its
    response. *)
Definition CONVERSATION : list str := [
    py "Hello"; py "Hello! Welcome to our textile and clothing store. How may I assist you today?";
    py "Hi"; py "Hi there! How can I help you with fabrics or clothing today?";
    py "Good morning"; py "Good morning! How can I support you with your textile needs today?";
    py "Good afternoon"; py "Good afternoon! How may I assist you?";
    py "What are the latest clothing trends?"; py "Current trends include breathable fabrics like cotton and linen, oversized fits, pastel colors, and sustainable eco-friendly materials.";
    py "What are the latest textile trends?"; py "Popular textile trends include organic fabrics, textured weaves, geometric patterns, digital prints, and soft-tone dyeing techniques.";
    py "What about textile patterns?"; py "Floral prints, geometric motifs, minimalistic stripes, and classy jacquard textures are trending this season.";
    py "What fabrics do you recommend?"; py "I recommend organic cotton for comfort, linen blends for summer wear, and OEKO-TEX certified materials for safe and sustainable clothing.";
    py "Which fabric is best for summer?"; py "For summer, lightweight cotton, linen, and rayon fabrics are excellent due to their breathability and soft texture.";
    py "Which fabric is best for winter?"; py "For winter, wool, fleece, heavy cotton, and flannel are highly suitable for warmth and comfort.";
    py "Do you offer custom tailoring?"; py "Yes, we offer tailoring for selected items. Please share your measurements or preferred fit for assistance.";
    py "Do you provide size guidance?"; py "Yes, we do! We offer sizes from XS to XXL, and I can help you choose the best fit based on your body measurements.";
    py "What sizes do you offer?"; py "We offer sizes XS, S, M, L, XL, and XXL. For detailed measurements, please check our size chart.";
    py "Can I return an item?"; py "Yes, items can be returned within 30 days, provided they are unused and have original tags attached.";
    py "How do I return an item?"; py "To return an item, simply submit a return request through your order history or contact our support team. We will guide you through the steps.";
    py "Do you accept exchanges?"; py "Yes, we accept exchanges within 30 days. The item should be unused and in its original condition.";
    py "What payment methods do you accept?"; py "We accept credit cards, debit cards, UPI, PayPal, and net banking. For bulk orders, bank transfers are also supported.";
    py "Do you offer discounts?"; py "Yes, we frequently offer seasonal sales, promotional codes, and special offers for loyalty members.";
    py "Are there any ongoing offers?"; py "Currently, we have discounts on selected cotton fabrics and a 10% promotion on all linen products.";
    py "Do you offer wholesale or bulk pricing?"; py "Yes, we do! For bulk or wholesale orders, please provide your quantity and we will share a customized quotation.";
    py "Do you offer international shipping?"; py "Yes, we ship internationally. Charges and delivery times vary by location.";
    py "How long does delivery take?"; py "Standard delivery takes 4–7 days, while express delivery takes 1–3 days depending on your region.";
    py "What is your shipping policy?"; py "We offer free shipping on selected orders and charge a small fee for express delivery. Shipping details are shown at checkout.";
    py "Is COD available?"; py "Yes, Cash on Delivery is available for select regions and order values.";
    py "Are your fabrics sustainable?"; py "Yes, we offer a wide range of sustainable fabrics, including organic cotton, bamboo fabrics, and recycled polyester blends.";
    py "How should I wash cotton fabric?"; py "For cotton fabrics, use mild detergent and cold water. Avoid direct sunlight for drying if you want to preserve color.";
    py "How should I wash linen?"; py "Wash linen with gentle detergent in lukewarm water. Avoid harsh rubbing to maintain fabric texture.";
    py "Do your fabrics shrink?"; py "Some natural fabrics like cotton and linen may have slight shrinkage. We recommend pre-washing before tailoring.";
    py "Can I track my order?"; py "Yes, after placing your order, you will receive a tracking link via email or SMS.";
    py "Do you provide sample swatches?"; py "Yes, we offer fabric swatches for selected materials so you can check texture and color before purchasing.";
    py "Can you recommend a fabric for formal wear?"; py "For formal wear, we suggest premium cotton, satin blends, silk blends, and wrinkle-resistant fabrics.";
    py "Can you recommend a fabric for kids?"; py "For kids, soft and breathable fabrics like cotton, jersey knit, and bamboo fabric are ideal.";
    py "Thank you"; py "You're welcome! If you need any more help, feel free to ask.";
    py "Thanks"; py "My pleasure! Let me know if you have any other questions.";
    py "Goodbye"; py "Goodbye! Have a great day and feel free to visit again."
].

Section Builtins.

(** [str.lower], and VADER's [SentimentIntensityAnalyzer.polarity_scores]
    (the scores are floats, read here as the rationals they denote). *)
Variable str_lower : str -> str.
Variable polarity_scores : str -> dict str Q.

(** The [for i in range(0, len(conversation)-1, 2)] loop that fills
    [mapping]. *)
Definition build_mapping (conversation : list str) : result (dict str str) :=
  for_each (py_range 0 (len conversation - 1) 2) []
    (fun mapping i =>
       x <- list_getitem conversation i ;;
       let k := str_lower (strip x) in
       v <- list_getitem conversation (i + 1) ;;
       Ok (dict_set mapping k v)).

(** The "common fallbacks" and the last resort. *)
Definition keyword_reply (mapping : dict str str) (key : str) : str :=
  if existsb (fun word => contains word key)
             [py "hi"; py "hello"; py "hey"] then
    dict_get mapping (py "hello") (py "Hello!")
  else if existsb (fun word => contains word key)
                  [py "thank"; py "thanks"] then
    dict_get mapping (py "thank you") (py "You're welcome!")
  else if contains (py "return") key || contains (py "refund") key then
    dict_get mapping (py "can i return an item?")
      (py "Yes, items can be returned within 30 days, provided they are unused and have original tags attached.")
  else
    py "Sorry — I don't have a precise answer for that yet. Could you rephrase or ask about fabrics, sizes, orders, or returns?".

(** The body of [fallback_get_response] once [mapping] is built. *)
Definition respond (mapping : dict str str) (user_text : str) : result str :=
  let key := str_lower (strip user_text) in
  if dict_contains mapping key then dict_getitem mapping key
  else
    close <- Difflib.get_close_matches key (dict_keys mapping) (6 # 10) ;;
    match close with
    | close0 :: _ => dict_getitem mapping close0
    | [] => Ok (keyword_reply mapping key)
    end.

Definition fallback_get_response (user_text : str) : result str :=
  mapping <- build_mapping CONVERSATION ;;
  respond mapping user_text.

Record sentiment : Type := {
  label : str;
  score : Q;
  details : dict str Q
}.

Definition analyze_sentiment (text : str) : sentiment :=
  let scores := polarity_scores text in
  let compound := dict_get scores (py "compound") 0%Q in
  let label :=
    if Qle_bool (1 # 2) compound then py "Positive"
    else if Qle_bool compound (- (1 # 2)) then py "Negative"
    else py "Neutral" in
  {| label := label; score := compound; details := scores |}.

End Builtins.

End App.

(* ------------------------------------------------------------------ *)
(** ** [main.py] *)

Module Main.

Section Builtins.

Variable str_lower : str -> str.
Variable polarity_scores : str -> dict str Q.

(** The dictionary display of [fallback_get_response]. *)
Definition mapping : dict str str :=
  fold_left (fun d '(k, v) => dict_set d k v) [
    (py "hello", py "Hello! Welcome to our textile and clothing store. How may I assist you today?");
    (py "hi", py "Hi there! How can I help you with fabrics or clothing today?");
    (py "what are the latest clothing trends?", py "Current trends include breathable fabrics like cotton and linen, oversized fits, pastel colors, and sustainable eco-friendly materials.");
    (py "which fabric is best for summer?", py "For summer, lightweight cotton, linen, and rayon fabrics are excellent due to their breathability and soft texture.");
    (py "thank you", py "You're welcome! If you need any more help, feel free to ask.");
    (py "thanks", py "My pleasure! Let me know if you have any other questions.");
    (py "goodbye", py "Goodbye! Have a great day and feel free to visit again.")
  ] [].

Definition fallback_get_response (text_input : str) : str :=
  let key := str_lower (strip text_input) in
  dict_get mapping key
    (py "Sorry, I don't have an answer for that yet. Could you try rephrasing?").

Definition get_sentiment_label (text_input : str) : result (str * Q) :=
  let scores := polarity_scores text_input in
  compound <- dict_getitem scores (py "compound") ;;
  if Qle_bool (1 # 2) compound then Ok (py "Positive", compound)
  else if Qle_bool compound (- (1 # 2)) then Ok (py "Negative", compound)
  else Ok (py "Neutral", compound).

End Builtins.

End Main.

(* ------------------------------------------------------------------ *)
(** * Properties *)

(** ** The monad and its loops *)

Lemma bind_Ok {A B : Type} (m : result A) (f : A -> result B) (b : B) :
  bind m f = Ok b -> exists a, m = Ok a /\ f a = Ok b.
Proof.
  destruct m as [a | e | ]; simpl; intros H; try discriminate.
  exists a. split; [reflexivity | exact H].
Qed.

(** A [while] loop whose test and body succeed on an invariant, and whose
    body lowers a measure, ends normally as soon as the fuel exceeds the
    measure. *)
Lemma while_terminates {S : Type} (I : S -> Prop) (m : S -> nat)
    (cond : S -> result bool) (body : S -> result S) :
  (forall s, I s ->
     exists c, cond s = Ok c /\
       (c = true -> exists s', body s = Ok s' /\ I s' /\ (m s' < m s)%nat)) ->
  forall fuel s, I s -> (m s < fuel)%nat ->
    exists s', while fuel cond body s = Ok s' /\ I s' /\ cond s' = Ok false.
Proof.
  intros Hstep fuel.
  induction fuel as [| fuel IH]; intros s Hs Hm; [lia |].
  destruct (Hstep s Hs) as [c [Hc Hbody]].
  simpl. rewrite Hc. simpl.
  destruct c.
  - destruct (Hbody eq_refl) as [s' [Hb [Hs' Hlt]]].
    rewrite Hb. simpl. apply IH; [exact Hs' | lia].
  - exists s. auto.
Qed.

(** ** Equality tests *)

Class PyEqLaws (K : Type) `{PyEq K} : Prop :=
  py_eqb_eq : forall x y : K, py_eqb x y = true <-> x = y.

Lemma str_eqb_eq (s t : str) : str_eqb s t = true <-> s = t.
Proof.
  revert t. induction s as [| c s IH]; intros [| d t]; simpl;
    try (split; [discriminate | discriminate]); try tauto.
  rewrite andb_true_iff, N.eqb_eq, IH.
  split; [intros [-> ->]; reflexivity | intros H; inversion H; auto].
Qed.

#[export] Instance PyEqLaws_char : PyEqLaws char := N.eqb_eq.
#[export] Instance PyEqLaws_int : PyEqLaws Z := Z.eqb_eq.
#[export] Instance PyEqLaws_str : PyEqLaws str := str_eqb_eq.

Lemma py_eqb_refl {K : Type} `{PyEqLaws K} (x : K) : py_eqb x x = true.
Proof. apply py_eqb_eq. reflexivity. Qed.

Lemma py_eqb_neq {K : Type} `{PyEqLaws K} (x y : K) :
  py_eqb x y = false <-> x <> y.
Proof.
  rewrite <- (py_eqb_eq x y). destruct (py_eqb x y); split; congruence.
Qed.

(** ** Dictionaries *)

Section DictFacts.

Context {K V : Type} `{PyEqLaws K}.

Lemma dict_lookup_In (d : dict K V) (k : K) (v : V) :
  dict_lookup d k = Some v -> In (k, v) d.
Proof.
  induction d as [| [k' v'] d IH]; simpl; [discriminate |].
  destruct (py_eqb k' k) eqn:E.
  - apply py_eqb_eq in E. intros [= ->]. left. congruence.
  - intros Hl. right. auto.
Qed.

Lemma dict_lookup_None (d : dict K V) (k : K) :
  dict_lookup d k = None <-> ~ In k (dict_keys d).
Proof.
  induction d as [| [k' v'] d IH]; simpl; [tauto |].
  destruct (py_eqb k' k) eqn:E.
  - apply py_eqb_eq in E. split; [discriminate | intros Hn; tauto].
  - apply py_eqb_neq in E. rewrite IH. tauto.
Qed.

Lemma dict_lookup_keys (d : dict K V) (k : K) :
  In k (dict_keys d) -> exists v, dict_lookup d k = Some v.
Proof.
  intros Hin. destruct (dict_lookup d k) as [v |] eqn:E; [eauto |].
  apply dict_lookup_None in E. contradiction.
Qed.

Lemma dict_get_cases (d : dict K V) (k : K) (default : V) :
  dict_get d k default = default \/ In (k, dict_get d k default) d.
Proof.
  unfold dict_get. destruct (dict_lookup d k) as [v |] eqn:E; [| auto].
  right. apply dict_lookup_In. exact E.
Qed.

Lemma dict_lookup_set (d : dict K V) (k k' : K) (v : V) :
  dict_lookup (dict_set d k v) k' =
  if py_eqb k k' then Some v else dict_lookup d k'.
Proof.
  induction d as [| [k0 v0] d IH]; simpl.
  - reflexivity.
  - destruct (py_eqb k0 k) eqn:E0; simpl.
    + apply py_eqb_eq in E0. subst k0.
      destruct (py_eqb k k'); reflexivity.
    + destruct (py_eqb k0 k') eqn:E1.
      * apply py_eqb_eq in E1. subst k0. rewrite py_eqb_neq in E0.
        destruct (py_eqb k k') eqn:E2; [| reflexivity].
        apply py_eqb_eq in E2. congruence.
      * exact IH.
Qed.

Lemma dict_set_In (d : dict K V) (k : K) (v : V) (x : K) (y : V) :
  In (x, y) (dict_set d k v) -> In (x, y) d \/ (x = k /\ y = v).
Proof.
  induction d as [| [k0 v0] d IH]; simpl.
  - intros [[= <- <-] | []]. auto.
  - destruct (py_eqb k0 k) eqn:E0; simpl.
    + apply py_eqb_eq in E0. subst k0.
      intros [[= <- <-] | Hin]; auto.
    + intros [Heq | Hin]; [auto |].
      destruct (IH Hin); auto.
Qed.

Lemma dict_del_In (d : dict K V) (k : K) (x : K) (y : V) :
  In (x, y) (dict_del d k) -> In (x, y) d.
Proof.
  induction d as [| [k0 v0] d IH]; simpl; [tauto |].
  destruct (py_eqb k0 k); simpl; [auto |].
  intros [Heq | Hin]; auto.
Qed.

Lemma dict_set_values (d : dict K V) (k : K) (v : V) (P : V -> Prop) :
  Forall P (map snd d) -> P v -> Forall P (map snd (dict_set d k v)).
Proof.
  intros Hd Hv. induction d as [| [k0 v0] d IH]; simpl.
  - constructor; [exact Hv | constructor].
  - inversion Hd as [| ? ? Hv0 Hd']; subst.
    destruct (py_eqb k0 k); simpl; constructor; auto.
Qed.

End DictFacts.

Set Implicit Arguments.

(** ** Indexing *)

(** [l[i]] is [c], for a non-negative [i]. *)
Definition at_pos {A : Type} (l : list A) (i : Z) (c : A) : Prop :=
  exists n, i = Z.of_nat n /\ nth_error l n = Some c.

Lemma at_pos_range {A : Type} (l : list A) (i : Z) (c : A) :
  at_pos l i c -> (0 <= i < len l)%Z.
Proof.
  intros [n [-> Hn]]. unfold len.
  assert (n < List.length l)%nat by (apply nth_error_Some; congruence).
  lia.
Qed.

Lemma at_pos_exists {A : Type} (l : list A) (i : Z) :
  (0 <= i < len l)%Z -> exists c, at_pos l i c.
Proof.
  unfold len. intros Hi.
  destruct (nth_error l (Z.to_nat i)) as [c |] eqn:E.
  - exists c, (Z.to_nat i). split; [lia | exact E].
  - apply nth_error_None in E. lia.
Qed.

Lemma at_pos_fun {A : Type} (l : list A) (i : Z) (c d : A) :
  at_pos l i c -> at_pos l i d -> c = d.
Proof.
  intros [n [-> Hn]] [m [Hm Hd]].
  apply Nat2Z.inj in Hm. subst m. congruence.
Qed.

Lemma list_getitem_at {A : Type} (l : list A) (i : Z) (c : A) :
  at_pos l i c -> list_getitem l i = Ok c.
Proof.
  intros Hat. pose proof (at_pos_range Hat) as Hr.
  destruct Hat as [n [-> Hn]].
  unfold list_getitem.
  destruct (Z.ltb_spec (Z.of_nat n) 0); [lia |].
  destruct (Z.ltb_spec (Z.of_nat n) 0); [lia |].
  destruct (Z.leb_spec (len l) (Z.of_nat n)); [lia |].
  simpl. rewrite Nat2Z.id, Hn. reflexivity.
Qed.

Lemma py_range_step1 (lo hi : Z) :
  py_range lo hi 1 =
  map (fun n => (lo + Z.of_nat n)%Z) (seq 0 (Z.to_nat (hi - lo))).
Proof.
  unfold py_range.
  replace ((hi - lo + 1 - 1) / 1)%Z with (hi - lo)%Z
    by (rewrite Z.div_1_r; lia).
  apply map_ext. intros n. lia.
Qed.

(** ** [find_longest_match] returns a common block inside its region *)

Section Matcher.

Variables a b : str.

(** [a[i:i+k] == b[j:j+k]], element by element. *)
Definition common (i j k : Z) : Prop :=
  forall t, (0 <= t < k)%Z ->
    exists c, at_pos a (i + t) c /\ at_pos b (j + t) c.

Definition region_ok (alo ahi blo bhi : Z) : Prop :=
  (0 <= alo <= ahi /\ ahi <= len a /\ 0 <= blo <= bhi /\ bhi <= len b)%Z.

Definition good (alo ahi blo bhi : Z) (x : Difflib.block) : Prop :=
  let '(i, j, k) := x in
  (alo <= i /\ i + k <= ahi /\ blo <= j /\ j + k <= bhi /\ 0 <= k)%Z
  /\ common i j k.

(** An entry [j2len[j] = k] written while scanning row [i]: a common run
    of [k] elements ending at [a[i]] and [b[j]]. *)
Definition entry_ok (alo blo bhi i j k : Z) : Prop :=
  (1 <= k /\ alo <= i - k + 1 /\ blo <= j - k + 1 /\ j < bhi)%Z
  /\ common (i - k + 1) (j - k + 1) k.

Definition b2j_ok (b2j : dict char (list Z)) : Prop :=
  forall c idxs, In (c, idxs) b2j -> forall j, In j idxs -> at_pos b j c.

Lemma common_snoc (i j k : Z) (c : char) :
  (0 <= k)%Z -> common i j k ->
  at_pos a (i + k) c -> at_pos b (j + k) c -> common i j (k + 1).
Proof.
  intros Hk Hc Ha Hb t Ht.
  destruct (Z.eq_dec t k) as [-> | Hne].
  - exists c. auto.
  - apply Hc. lia.
Qed.

Lemma common_cons (i j k : Z) (c : char) :
  (0 <= k)%Z -> common i j k ->
  at_pos a (i - 1) c -> at_pos b (j - 1) c -> common (i - 1) (j - 1) (k + 1).
Proof.
  intros Hk Hc Ha Hb t Ht.
  destruct (Z.eq_dec t 0) as [-> | Hne].
  - exists c. rewrite !Z.add_0_r. auto.
  - destruct (Hc (t - 1)%Z) as [d [Hd1 Hd2]]; [lia |].
    exists d.
    replace (i - 1 + t)%Z with (i + (t - 1))%Z by lia.
    replace (j - 1 + t)%Z with (j + (t - 1))%Z by lia.
    auto.
Qed.

Lemma chain_b_fold_ok (l pre : str) (d : dict char (list Z)) :
  b = pre ++ l -> b2j_ok d ->
  b2j_ok
    (fold_left (fun (b2j : dict char (list Z)) '(i, elt) =>
                  dict_set b2j elt (dict_get b2j elt [] ++ [i]))
               (enumerate_from (len pre) l) d).
Proof.
  revert pre d. induction l as [| elt l IH]; intros pre d Hb Hd; simpl.
  - exact Hd.
  - replace (len pre + 1)%Z with (len (pre ++ [elt])).
    2:{ unfold len. rewrite length_app. simpl. lia. }
    apply IH.
    + rewrite <- app_assoc. exact Hb.
    + intros c idxs Hin j Hj.
      apply dict_set_In in Hin. destruct Hin as [Hin | [-> ->]].
      * exact (Hd _ _ Hin _ Hj).
      * apply in_app_or in Hj. destruct Hj as [Hj | [<- | []]].
        -- destruct (dict_get_cases d elt []) as [E | E].
           ++ rewrite E in Hj. destruct Hj.
           ++ exact (Hd _ _ E _ Hj).
        -- exists (List.length pre). split; [reflexivity |].
           rewrite Hb. rewrite nth_error_app2 by lia.
           rewrite Nat.sub_diag. reflexivity.
Qed.

Lemma chain_b_ok : b2j_ok (Difflib.chain_b b).
Proof.
  unfold Difflib.chain_b.
  match goal with
  | |- context [fold_left ?f (enumerate b) []] =>
      set (d := fold_left f (enumerate b) [])
  end.
  assert (Hd : b2j_ok d).
  { apply (@chain_b_fold_ok b [] []); [reflexivity |].
    intros c idxs []. }
  destruct (200 <=? len b)%Z; [| exact Hd].
  match goal with
  | |- b2j_ok (fold_left _ ?p d) => generalize p
  end.
  intros popular. revert Hd. generalize d.
  clear d. intros d Hd. revert d Hd.
  induction popular as [| e popular IH]; intros d Hd; simpl; [exact Hd |].
  apply IH. intros c idxs Hin. apply dict_del_In in Hin. eauto.
Qed.

Lemma longest_inner_ok (alo ahi blo bhi i : Z) (ai : char)
    (j2len : dict Z Z) :
  (alo <= i < ahi)%Z -> at_pos a i ai ->
  (forall j k, In (j, k) j2len -> entry_ok alo blo bhi (i - 1) j k) ->
  forall (idxs : list Z) (newj2len : dict Z Z) (best : Difflib.block),
    (forall j, In j idxs -> at_pos b j ai) ->
    (forall j k, In (j, k) newj2len -> entry_ok alo blo bhi i j k) ->
    good alo ahi blo bhi best ->
    (forall j k, In (j, k)
                    (fst (Difflib.longest_inner i blo bhi j2len idxs
                                                newj2len best)) ->
                 entry_ok alo blo bhi i j k)
    /\ good alo ahi blo bhi
         (snd (Difflib.longest_inner i blo bhi j2len idxs newj2len best)).
Proof.
  intros Hi Hai Hold idxs.
  induction idxs as [| j rest IH]; intros newj2len best Hidx Hnew Hbest;
    simpl.
  - auto.
  - destruct (Z.ltb_spec j blo) as [Hlt | Hge].
    { apply IH; auto. intros j' Hj'. apply Hidx. right. exact Hj'. }
    unfold Z.geb. destruct (Z.compare_spec j bhi) as [Heq | Hlt | Hgt];
      simpl; auto.
    assert (Hbj : at_pos b j ai) by (apply Hidx; left; reflexivity).
    set (k := (dict_get j2len (j - 1)%Z 0%Z + 1)%Z).
    assert (Hk : entry_ok alo blo bhi i j k).
    { subst k. destruct (dict_get_cases j2len (j - 1)%Z 0%Z) as [E | E].
      - rewrite E. simpl. split; [lia |].
        intros t Ht. assert (t = 0%Z) by lia. subst t.
        exists ai. replace (i - 1 + 1 + 0)%Z with i by lia.
        replace (j - 1 + 1 + 0)%Z with j by lia. auto.
      - apply Hold in E. destruct E as [Hb' Hc].
        set (k' := dict_get j2len (j - 1)%Z 0%Z) in *.
        split; [lia |].
        replace (i - (k' + 1) + 1)%Z with (i - 1 - k' + 1)%Z by lia.
        replace (j - (k' + 1) + 1)%Z with (j - 1 - k' + 1)%Z by lia.
        apply common_snoc with (c := ai); [lia | exact Hc | |].
        + replace (i - 1 - k' + 1 + k')%Z with i by lia. exact Hai.
        + replace (j - 1 - k' + 1 + k')%Z with j by lia. exact Hbj. }
    destruct best as [[besti bestj] bestsize].
    apply IH.
    + intros j' Hj'. apply Hidx. right. exact Hj'.
    + intros j' k' Hin. apply dict_set_In in Hin.
      destruct Hin as [Hin | [-> ->]]; auto.
    + unfold Z.gtb. destruct (Z.compare_spec k bestsize); auto.
      destruct Hk as [Hb' Hc]. split; [lia | exact Hc].
Qed.

Lemma longest_outer_ok (b2j : dict char (list Z)) (alo ahi blo bhi : Z) :
  region_ok alo ahi blo bhi -> b2j_ok b2j ->
  forall (n s : nat) (j2len : dict Z Z) (best : Difflib.block),
    (Z.of_nat (s + n) <= ahi - alo)%Z ->
    (forall j k, In (j, k) j2len ->
                 entry_ok alo blo bhi (alo + Z.of_nat s - 1) j k) ->
    good alo ahi blo bhi best ->
    exists j2len' best',
      for_each (map (fun n => (alo + Z.of_nat n)%Z) (seq s n)) (j2len, best)
               (Difflib.longest_row a b2j blo bhi)
      = Ok (j2len', best')
      /\ good alo ahi blo bhi best'.
Proof.
  intros Hreg Hb2j n.
  induction n as [| n IH]; intros s j2len best Hs Hj2 Hbest; simpl.
  - eauto.
  - destruct Hreg as [Ha [Ha' [Hb Hb']]].
    destruct (@at_pos_exists _ a (alo + Z.of_nat s)%Z) as [ai Hai]; [lia |].
    unfold Difflib.longest_row at 1.
    rewrite (list_getitem_at Hai). simpl.
    destruct (@longest_inner_ok alo ahi blo bhi (alo + Z.of_nat s)%Z ai
                j2len ltac:(lia) Hai Hj2 (dict_get b2j ai []) [] best)
      as [Hnew Hbest'].
    + intros j Hj. destruct (dict_get_cases b2j ai []) as [E | E].
      * rewrite E in Hj. destruct Hj.
      * exact (Hb2j _ _ E _ Hj).
    + intros j k [].
    + exact Hbest.
    + destruct (Difflib.longest_inner _ _ _ _ _ _ _) as [j2len' best'].
      apply IH.
      * lia.
      * intros j k Hin. simpl in Hnew.
        replace (alo + Z.of_nat (S s) - 1)%Z with (alo + Z.of_nat s)%Z
          by lia.
        auto.
      * exact Hbest'.
Qed.

Definition extend_measure (alo ahi : Z) (left : bool) (x : Difflib.block)
    : nat :=
  let '(i, j, k) := x in
  if left then Z.to_nat (i - alo) else Z.to_nat (ahi - (i + k)).

Lemma extend_ok (alo ahi blo bhi : Z) (left junk : bool)
    (best : Difflib.block) :
  region_ok alo ahi blo bhi -> good alo ahi blo bhi best ->
  exists best',
    Difflib.extend a b alo ahi blo bhi left junk best = Ok best'
    /\ good alo ahi blo bhi best'.
Proof.
  intros Hreg Hbest.
  destruct (@while_terminates _ (good alo ahi blo bhi)
              (extend_measure alo ahi left)
              (Difflib.extend_cond a b alo ahi blo bhi left junk)
              (Difflib.extend_body left)) with (fuel := Difflib.loop_fuel a)
              (s := best)
    as [best' [Hrun [Hgood _]]].
  - clear best Hbest. intros [[i j] k] [Hbnd Hc].
    destruct Hreg as [Ha [Ha' [Hb Hb']]].
    unfold Difflib.extend_cond, Difflib.extend_body, Difflib.isbjunk.
    destruct left.
    + unfold Z.gtb.
      destruct (Z.compare_spec i alo); simpl; try (exists false; split; [reflexivity | discriminate]).
      destruct (Z.compare_spec j blo); simpl; try (exists false; split; [reflexivity | discriminate]).
      destruct (@at_pos_exists _ a (i - 1)%Z) as [x Hx]; [lia |].
      destruct (@at_pos_exists _ b (j - 1)%Z) as [y Hy]; [lia |].
      rewrite (list_getitem_at Hy). simpl.
      destruct junk; simpl; [exists false; split; [reflexivity | discriminate] |].
      rewrite (list_getitem_at Hx). simpl.
      exists (py_eqb x y). split; [reflexivity |].
      intros E. apply py_eqb_eq in E. subst y.
      eexists. split; [reflexivity |]. split.
      * split; [lia |]. apply common_cons with (c := x); auto; lia.
      * simpl. lia.
    + destruct (Z.ltb_spec (i + k) ahi); simpl; try (exists false; split; [reflexivity | discriminate]).
      destruct (Z.ltb_spec (j + k) bhi); simpl; try (exists false; split; [reflexivity | discriminate]).
      destruct (@at_pos_exists _ a (i + k)%Z) as [x Hx]; [lia |].
      destruct (@at_pos_exists _ b (j + k)%Z) as [y Hy]; [lia |].
      rewrite (list_getitem_at Hy). simpl.
      destruct junk; simpl; [exists false; split; [reflexivity | discriminate] |].
      rewrite (list_getitem_at Hx). simpl.
      exists (py_eqb x y). split; [reflexivity |].
      intros E. apply py_eqb_eq in E. subst y.
      eexists. split; [reflexivity |]. split.
      * split; [lia |]. apply common_snoc with (c := x); auto; lia.
      * simpl. lia.
  - exact Hbest.
  - destruct best as [[i j] k]. destruct Hbest as [Hbnd _].
    destruct Hreg as [Ha [Ha' _]].
    unfold Difflib.loop_fuel, extend_measure, len in *.
    destruct left; lia.
  - eauto.
Qed.

Lemma find_longest_match_ok (b2j : dict char (list Z))
    (alo ahi blo bhi : Z) :
  region_ok alo ahi blo bhi -> b2j_ok b2j ->
  exists x,
    Difflib.find_longest_match a b b2j alo ahi blo bhi = Ok x
    /\ good alo ahi blo bhi x.
Proof.
  intros Hreg Hb2j. unfold Difflib.find_longest_match.
  rewrite py_range_step1.
  destruct (@longest_outer_ok b2j alo ahi blo bhi Hreg Hb2j
              (Z.to_nat (ahi - alo)) 0%nat [] (alo, blo, 0%Z))
    as [j2len [best [Hloop Hbest]]].
  - destruct Hreg as [Ha _]. lia.
  - intros j k [].
  - destruct Hreg as [Ha [Ha' [Hb Hb']]].
    split; [lia |]. intros t Ht. lia.
  - match goal with
    | |- context [bind ?m _] =>
        assert (Hm : m = Ok (j2len, best)) by exact Hloop; rewrite Hm
    end.
    simpl.
    destruct (@extend_ok alo ahi blo bhi true false best Hreg Hbest)
      as [b1 [E1 G1]].
    rewrite E1. simpl.
    destruct (@extend_ok alo ahi blo bhi false false b1 Hreg G1)
      as [b2 [E2 G2]].
    rewrite E2. simpl.
    destruct (@extend_ok alo ahi blo bhi true true b2 Hreg G2)
      as [b3 [E3 G3]].
    rewrite E3. simpl.
    destruct (@extend_ok alo ahi blo bhi false true b3 Hreg G3)
      as [b4 [E4 G4]].
    rewrite E4. simpl. eauto.
Qed.

End Matcher.

(** ** Counting elements *)

Definition cnt (c : char) (l : str) : nat := count_occ N.eq_dec l c.

Arguments cnt : simpl never.

(** [l[lo:hi]] *)
Definition slice (l : str) (lo hi : Z) : str :=
  firstn (Z.to_nat (hi - lo)) (skipn (Z.to_nat lo) l).

Fixpoint remove_one (c : char) (l : str) : str :=
  match l with
  | [] => []
  | x :: l' => if N.eqb x c then l' else x :: remove_one c l'
  end.

(** The size of the largest multiset contained in both [a] and [avail],
    taken greedily along [a]. *)
Fixpoint common_count (avail a : str) : nat :=
  match a with
  | [] => 0
  | e :: a' =>
      if (0 <? cnt e avail)%nat
      then S (common_count (remove_one e avail) a')
      else common_count avail a'
  end.

Lemma cnt_app (c : char) (l1 l2 : str) :
  cnt c (l1 ++ l2) = (cnt c l1 + cnt c l2)%nat.
Proof. apply count_occ_app. Qed.

Lemma cnt_cons (c e : char) (l : str) :
  cnt c (e :: l) = ((if N.eqb e c then 1 else 0) + cnt c l)%nat.
Proof.
  unfold cnt. simpl. destruct (N.eq_dec e c) as [-> | Hne].
  - rewrite N.eqb_refl. reflexivity.
  - apply N.eqb_neq in Hne. rewrite Hne. reflexivity.
Qed.

Lemma cnt_remove_one (c e : char) (l : str) :
  cnt c (remove_one e l) =
  if N.eqb e c then Nat.pred (cnt c l) else cnt c l.
Proof.
  induction l as [| x l IH]; simpl.
  - destruct (N.eqb e c); reflexivity.
  - destruct (N.eqb x e) eqn:Exe.
    + apply N.eqb_eq in Exe. subst x. rewrite cnt_cons.
      destruct (N.eqb e c); reflexivity.
    + rewrite !cnt_cons, IH.
      destruct (N.eqb e c) eqn:Eec; [| reflexivity].
      apply N.eqb_eq in Eec. subst c. rewrite Exe. reflexivity.
Qed.

Lemma length_remove_one_le (e : char) (l : str) :
  (List.length l <= S (List.length (remove_one e l)))%nat.
Proof.
  induction l as [| x l IH]; simpl; [lia |].
  destruct (N.eqb x e); simpl; lia.
Qed.

Lemma length_remove_one (e : char) (l : str) :
  (0 < cnt e l)%nat -> S (List.length (remove_one e l)) = List.length l.
Proof.
  induction l as [| x l IH]; simpl; [unfold cnt; simpl; lia |].
  rewrite cnt_cons.
  destruct (N.eqb x e); simpl; [reflexivity |].
  intros Hpos. rewrite IH by exact Hpos. reflexivity.
Qed.

Lemma cnt_zero_nil (l : str) : (forall c, cnt c l = 0%nat) -> l = [].
Proof. intros Hall. apply (count_occ_inv_nil N.eq_dec). exact Hall. Qed.

Lemma common_count_le_avail (a avail : str) :
  (common_count avail a <= List.length avail)%nat.
Proof.
  revert avail. induction a as [| e a IH]; intros avail; simpl; [lia |].
  destruct (Nat.ltb_spec 0 (cnt e avail)) as [Hpos | Hz].
  - specialize (IH (remove_one e avail)).
    rewrite <- (@length_remove_one e avail Hpos). lia.
  - apply IH.
Qed.

Lemma common_count_le (a avail : str) :
  (common_count avail a <= List.length a)%nat.
Proof.
  revert avail. induction a as [| e a IH]; intros avail; simpl; [lia |].
  destruct (0 <? cnt e avail)%nat.
  - specialize (IH (remove_one e avail)). lia.
  - specialize (IH avail). lia.
Qed.

(** Any multiset contained in both [a] and [avail] is no larger than what
    the greedy count finds. *)
Lemma common_count_ge (a : str) :
  forall avail s : str,
    (forall c, cnt c s <= cnt c a)%nat ->
    (forall c, cnt c s <= cnt c avail)%nat ->
    (List.length s <= common_count avail a)%nat.
Proof.
  induction a as [| e a IH]; intros avail s Ha Hv; simpl.
  - rewrite (@cnt_zero_nil s); [simpl; lia |].
    intros c. specialize (Ha c). unfold cnt in *. simpl in Ha. lia.
  - destruct (Nat.ltb_spec 0 (cnt e avail)) as [Hpos | Hz].
    + pose proof (length_remove_one_le e s) as Hlen.
      enough (List.length (remove_one e s)
              <= common_count (remove_one e avail) a)%nat by lia.
      apply IH; intros c; rewrite !cnt_remove_one;
        [specialize (Ha c); rewrite cnt_cons in Ha
        | specialize (Hv c)];
        destruct (N.eqb e c); lia.
    + apply IH; [| exact Hv].
      intros c. specialize (Ha c). rewrite cnt_cons in Ha.
      destruct (N.eqb e c) eqn:E; [| lia].
      apply N.eqb_eq in E. subst c. specialize (Hv e). lia.
Qed.

Lemma firstn_add {A : Type} (n m : nat) (l : list A) :
  firstn (n + m) l = firstn n l ++ firstn m (skipn n l).
Proof.
  revert l. induction n as [| n IH]; intros l; simpl; [reflexivity |].
  destruct l as [| x l]; simpl.
  - rewrite firstn_nil. reflexivity.
  - rewrite IH. reflexivity.
Qed.

Lemma slice_split (l : str) (lo mid hi : Z) :
  (0 <= lo <= mid)%Z -> (mid <= hi)%Z ->
  slice l lo hi = slice l lo mid ++ slice l mid hi.
Proof.
  intros H1 H2. unfold slice.
  replace (Z.to_nat (hi - lo)) with
    (Z.to_nat (mid - lo) + Z.to_nat (hi - mid))%nat by lia.
  rewrite firstn_add, skipn_skipn.
  replace (Z.to_nat (mid - lo) + Z.to_nat lo)%nat with (Z.to_nat mid) by lia.
  reflexivity.
Qed.

Lemma slice_full (l : str) : slice l 0 (len l) = l.
Proof.
  unfold slice, len. simpl.
  rewrite Z.sub_0_r, Nat2Z.id. apply firstn_all.
Qed.

Lemma cnt_slice_le (c : char) (l : str) (lo hi : Z) :
  (0 <= lo <= hi)%Z -> (cnt c (slice l lo hi) <= cnt c l)%nat.
Proof.
  intros H. unfold slice.
  rewrite <- (firstn_skipn (Z.to_nat lo) l) at 2.
  rewrite cnt_app.
  rewrite <- (firstn_skipn (Z.to_nat (hi - lo)) (skipn (Z.to_nat lo) l))
    at 2.
  rewrite cnt_app. lia.
Qed.

(** ** [get_matching_blocks] ends, and its blocks fit in both strings *)

Section Blocks.

Variables a b : str.

Lemma common_slice (i j k : Z) :
  (0 <= i)%Z -> (0 <= j)%Z -> (0 <= k)%Z ->
  common a b i j k -> slice a i (i + k) = slice b j (j + k).
Proof.
  intros Hi Hj Hk Hc. unfold slice.
  replace (i + k - i)%Z with k by lia.
  replace (j + k - j)%Z with k by lia.
  apply nth_error_ext. intros n.
  rewrite !nth_error_firstn, !nth_error_skipn.
  destruct (Nat.ltb_spec n (Z.to_nat k)) as [Hlt | Hge]; [| reflexivity].
  destruct (Hc (Z.of_nat n)) as [c [[na [Ena Hna]] [nb [Enb Hnb]]]];
    [lia |].
  replace (Z.to_nat i + n)%nat with na by lia.
  replace (Z.to_nat j + n)%nat with nb by lia.
  congruence.
Qed.

Definition region_a (r : Difflib.region) : str :=
  let '(alo, ahi, blo, bhi) := r in slice a alo ahi.

Definition region_b (r : Difflib.region) : str :=
  let '(alo, ahi, blo, bhi) := r in slice b blo bhi.

Definition region_ok' (r : Difflib.region) : Prop :=
  let '(alo, ahi, blo, bhi) := r in region_ok a b alo ahi blo bhi.

Definition queue_measure (queue : list Difflib.region) : nat :=
  list_sum (map (fun '(alo, ahi, blo, bhi) =>
                   Z.to_nat (2 * (ahi - alo) + 1)) queue).

Lemma queue_measure_cons (alo ahi blo bhi : Z)
    (queue : list Difflib.region) :
  queue_measure ((alo, ahi, blo, bhi) :: queue) =
  (Z.to_nat (2 * (ahi - alo) + 1) + queue_measure queue)%nat.
Proof. reflexivity. Qed.

(** What the loop of [get_matching_blocks] keeps true: the regions still
    to be searched lie inside the strings, and the blocks found so far
    together with those regions use every element of [a], and of [b], at
    most once. *)
Definition blocks_inv (st : list Difflib.region * list Difflib.block)
    : Prop :=
  Forall region_ok' (fst st)
  /\ exists s : str,
       len s = sum (map Difflib.block_size (snd st))
       /\ (forall c,
             cnt c s + cnt c (concat (map region_a (fst st))) <= cnt c a)%nat
       /\ (forall c,
             cnt c s + cnt c (concat (map region_b (fst st))) <= cnt c b)%nat.

Lemma sum_snoc (l : list Z) (x : Z) : sum (l ++ [x]) = (sum l + x)%Z.
Proof. unfold sum. rewrite fold_left_app. reflexivity. Qed.

Lemma blocks_step (st : list Difflib.region * list Difflib.block) :
  blocks_inv st ->
  exists c,
    Difflib.blocks_cond st = Ok c
    /\ (c = true ->
        exists st',
          Difflib.blocks_body a b (Difflib.chain_b b) st = Ok st'
          /\ blocks_inv st'
          /\ (queue_measure (fst st') < queue_measure (fst st))%nat).
Proof.
  destruct st as [queue blocks]. intros [Hq [s [Hs [Hca Hcb]]]].
  unfold Difflib.blocks_cond. eexists. split; [reflexivity |].
  simpl in *. destruct queue as [| [[[alo ahi] blo] bhi] queue];
    [discriminate |].
  intros _. inversion Hq as [| ? ? Hr Hq']; subst.
  destruct (find_longest_match_ok Hr (chain_b_ok b)) as [[[i j] k] [E G]].
  rewrite E. simpl.
  destruct G as [Hbnd Hcom].
  destruct Hr as [Ha [Ha' [Hb Hb']]].
  simpl in Hca, Hcb.
  assert (Esa : slice a alo ahi =
                slice a alo i ++ slice a i (i + k) ++ slice a (i + k) ahi).
  { rewrite (@slice_split a alo i ahi) by lia.
    rewrite (@slice_split a i (i + k) ahi) by lia. reflexivity. }
  assert (Esb : slice b blo bhi =
                slice b blo j ++ slice b j (j + k) ++ slice b (j + k) bhi).
  { rewrite (@slice_split b blo j bhi) by lia.
    rewrite (@slice_split b j (j + k) bhi) by lia. reflexivity. }
  assert (Eab : slice a i (i + k) = slice b j (j + k))
    by (apply common_slice; [lia | lia | lia | exact Hcom]).
  destruct (Z.eqb_spec k 0) as [Hk0 | Hk]; simpl.
  - eexists. split; [reflexivity |]. split.
    + split; [exact Hq' |]. exists s. simpl. split; [exact Hs |].
      split; intros c; [specialize (Hca c) | specialize (Hcb c)];
        rewrite cnt_app in *; lia.
    + cbn [fst]. rewrite queue_measure_cons. lia.
  - eexists. split; [reflexivity |]. split.
    + split.
      * simpl.
        destruct ((alo <? i)%Z && (blo <? j)%Z);
          destruct ((i + k <? ahi)%Z && (j + k <? bhi)%Z);
          repeat (constructor; [simpl; unfold region_ok; lia |]);
          exact Hq'.
      * exists (s ++ slice a i (i + k)). cbn [fst snd]. split.
        { rewrite map_app. cbn [map]. rewrite sum_snoc.
          change (Difflib.block_size (i, j, k)) with k.
          unfold len in *. rewrite length_app.
          unfold slice at 1. rewrite length_firstn, length_skipn. lia. }
        split; intros c;
          [specialize (Hca c); rewrite Esa in Hca
          | specialize (Hcb c); rewrite Esb in Hcb; rewrite Eab];
          rewrite !cnt_app in *;
          destruct ((alo <? i)%Z && (blo <? j)%Z);
          destruct ((i + k <? ahi)%Z && (j + k <? bhi)%Z);
          simpl; rewrite ?cnt_app; lia.
    + cbn [fst].
      destruct ((alo <? i)%Z && (blo <? j)%Z);
        destruct ((i + k <? ahi)%Z && (j + k <? bhi)%Z);
        rewrite ?queue_measure_cons; lia.
Qed.

Lemma sum_shift (l : list Z) (x : Z) :
  fold_left Z.add l x = (x + sum l)%Z.
Proof.
  unfold sum. revert x. induction l as [| y l IH]; intros x; simpl; [lia |].
  rewrite IH, (IH y). lia.
Qed.

Lemma sum_cons (l : list Z) (x : Z) : sum (x :: l) = (x + sum l)%Z.
Proof. unfold sum at 1. simpl. apply sum_shift. Qed.

(** The total size of a list of blocks. *)
Definition total (l : list Difflib.block) : Z :=
  sum (map Difflib.block_size l).

Lemma total_cons (x : Difflib.block) (l : list Difflib.block) :
  total (x :: l) = (Difflib.block_size x + total l)%Z.
Proof. unfold total. simpl. apply sum_cons. Qed.

Lemma total_snoc (x : Difflib.block) (l : list Difflib.block) :
  total (l ++ [x]) = (total l + Difflib.block_size x)%Z.
Proof. unfold total. rewrite map_app. apply sum_snoc. Qed.

Lemma total_insert_sorted (x : Difflib.block) (l : list Difflib.block) :
  total (Difflib.insert_sorted x l) = (Difflib.block_size x + total l)%Z.
Proof.
  induction l as [| y l IH]; simpl; [apply total_cons |].
  destruct (Difflib.block_ltb x y); [rewrite !total_cons; reflexivity |].
  rewrite !total_cons, IH. lia.
Qed.

Lemma total_sort_blocks (l : list Difflib.block) :
  total (Difflib.sort_blocks l) = total l.
Proof.
  unfold Difflib.sort_blocks.
  enough (forall acc,
            total (fold_left (fun sorted x => Difflib.insert_sorted x sorted)
                             l acc)
            = (total acc + total l)%Z) as Hgen
    by (rewrite Hgen; reflexivity).
  induction l as [| x l IH]; intros acc; simpl.
  - unfold total at 3. simpl. unfold sum. simpl. lia.
  - rewrite IH, total_insert_sorted, total_cons. lia.
Qed.

Lemma total_collapse_loop (l : list Difflib.block) :
  forall (cur : Difflib.block) (non_adjacent : list Difflib.block),
    (Difflib.block_size
       (fst (fold_left Difflib.collapse_step l (cur, non_adjacent)))
     + total (snd (fold_left Difflib.collapse_step l (cur, non_adjacent)))
     = Difflib.block_size cur + total non_adjacent + total l)%Z.
Proof.
  induction l as [| [[i2 j2] k2] l IH]; intros [[i1 j1] k1] non_adjacent.
  - simpl. unfold total at 3. simpl. unfold sum. simpl. lia.
  - cbn [fold_left].
    match goal with
    | |- context [fold_left Difflib.collapse_step l ?st] =>
        assert (Hstep :
          st = if ((i1 + k1 =? i2)%Z && (j1 + k1 =? j2)%Z)%bool
               then ((i1, j1, (k1 + k2)%Z), non_adjacent)
               else ((i2, j2, k2),
                     if negb (k1 =? 0)%Z
                     then non_adjacent ++ [(i1, j1, k1)]
                     else non_adjacent)) by reflexivity;
        rewrite Hstep; clear Hstep
    end.
    rewrite total_cons.
    destruct ((i1 + k1 =? i2)%Z && (j1 + k1 =? j2)%Z).
    + rewrite IH. unfold Difflib.block_size. simpl. lia.
    + rewrite IH. destruct (Z.eqb_spec k1 0) as [-> | Hk]; simpl.
      * unfold Difflib.block_size. simpl. lia.
      * rewrite total_snoc. unfold Difflib.block_size. simpl. lia.
Qed.

(** Sorting the blocks, merging adjacent ones and adding the sentinel
    leave the number of matched elements as it is. *)
Lemma total_collapse (l : list Difflib.block) (la lb : Z) :
  total (Difflib.collapse l la lb) = total l.
Proof.
  unfold Difflib.collapse.
  match goal with
  | |- context [fold_left Difflib.collapse_step l ?init] =>
      pose proof
        (total_collapse_loop l (0, 0, 0)%Z []
         : (Difflib.block_size
              (fst (fold_left Difflib.collapse_step l init))
            + total (snd (fold_left Difflib.collapse_step l init))
            = _)%Z) as Hloop;
      destruct (fold_left Difflib.collapse_step l init)
        as [[[i1 j1] k1] non_adjacent]
  end.
  unfold Difflib.block_size in Hloop. cbn [fst snd] in Hloop.
  change (total []) with 0%Z in Hloop.
  rewrite total_snoc. unfold Difflib.block_size at 1. cbn [snd].
  destruct (Z.eqb_spec k1 0) as [-> | Hk]; cbn [negb].
  - lia.
  - rewrite total_snoc. unfold Difflib.block_size at 1. cbn [snd]. lia.
Qed.

(** The matching blocks are found with the fuel provided, and they are
    the image of a multiset contained in both strings. *)
Lemma get_matching_blocks_ok :
  exists (blocks : list Difflib.block) (s : str),
    Difflib.get_matching_blocks a b = Ok blocks
    /\ len s = total blocks
    /\ (forall c, cnt c s <= cnt c a)%nat
    /\ (forall c, cnt c s <= cnt c b)%nat.
Proof.
  unfold Difflib.get_matching_blocks.
  destruct (@while_terminates _ blocks_inv
              (fun st => queue_measure (fst st))
              Difflib.blocks_cond
              (Difflib.blocks_body a b (Difflib.chain_b b))
              blocks_step (Difflib.loop_fuel a)
              ([(0%Z, len a, 0%Z, len b)], []))
    as [[queue blocks] [Hrun [[_ [s [Hs [Hca Hcb]]]] Hcond]]].
  - split.
    + constructor; [| constructor]. simpl. unfold region_ok, len. lia.
    + exists []. simpl. split; [reflexivity |].
      split; intros c; rewrite app_nil_r; apply cnt_slice_le;
        unfold len; lia.
  - cbn [fst]. rewrite queue_measure_cons.
    change (queue_measure []) with 0%nat.
    unfold Difflib.loop_fuel, len. lia.
  - rewrite Hrun. cbn [bind snd].
    exists (Difflib.collapse (Difflib.sort_blocks blocks) (len a) (len b)), s.
    unfold Difflib.blocks_cond in Hcond. simpl in Hcond.
    destruct queue; [| discriminate].
    simpl in *. split; [reflexivity |].
    split; [rewrite total_collapse, total_sort_blocks; exact Hs |].
    split; intros c; [specialize (Hca c) | specialize (Hcb c)]; lia.
Qed.

End Blocks.

(** ** [quick_ratio] counts the common multiset *)

Lemma dict_get_set {K V : Type} `{PyEqLaws K} (d : dict K V) (k k' : K)
    (v default : V) :
  dict_get (dict_set d k v) k' default =
  if py_eqb k k' then v else dict_get d k' default.
Proof.
  unfold dict_get. rewrite dict_lookup_set.
  destruct (py_eqb k k'); reflexivity.
Qed.

Lemma fullbcount_fold (l pre : str) (d : dict char Z) :
  (forall e, dict_get d e 0%Z = Z.of_nat (cnt e pre)) ->
  forall e,
    dict_get
      (fold_left (fun (d : dict char Z) elt =>
                    dict_set d elt (dict_get d elt 0 + 1)%Z) l d) e 0%Z
    = Z.of_nat (cnt e (pre ++ l)).
Proof.
  revert pre d. induction l as [| x l IH]; intros pre d Hd e; simpl.
  - rewrite app_nil_r. apply Hd.
  - replace (pre ++ x :: l) with ((pre ++ [x]) ++ l)
      by (rewrite <- app_assoc; reflexivity).
    apply IH. intros e'. rewrite dict_get_set, cnt_app, cnt_cons.
    change (py_eqb x e') with (N.eqb x e').
    destruct (N.eqb x e') eqn:E.
    + apply N.eqb_eq in E. subst e'. rewrite Hd.
      change (cnt x []) with 0%nat. lia.
    + rewrite Hd. change (cnt e' []) with 0%nat. lia.
Qed.

Lemma fullbcount_spec (b : str) (e : char) :
  dict_get (Difflib.fullbcount b) e 0%Z = Z.of_nat (cnt e b).
Proof.
  unfold Difflib.fullbcount.
  apply (@fullbcount_fold b [] []). intros e'. reflexivity.
Qed.

(** [avail] after the elements [p] of [a] have been looked at. *)
Definition avail_inv (b p : str) (avail : dict char Z) : Prop :=
  forall e,
    dict_lookup avail e =
    if (0 <? cnt e p)%nat
    then Some (Z.of_nat (cnt e b) - Z.of_nat (cnt e p))%Z
    else None.

Lemma quick_fold_spec (b : str) :
  forall (r p : str) (avail : dict char Z) (matches : Z) (rem : str),
    avail_inv b p avail ->
    (forall c, cnt c rem = cnt c b - cnt c p)%nat ->
    snd (fold_left (Difflib.quick_step (Difflib.fullbcount b)) r
                   (avail, matches))
    = (matches + Z.of_nat (common_count rem r))%Z.
Proof.
  induction r as [| e r IH]; intros p avail matches rem Hav Hrem.
  - simpl. lia.
  - cbn [fold_left common_count]. unfold Difflib.quick_step at 2.
    set (numb := if dict_contains avail e then dict_get avail e 0%Z
                 else dict_get (Difflib.fullbcount b) e 0%Z).
    assert (Hnumb : numb = (Z.of_nat (cnt e b) - Z.of_nat (cnt e p))%Z).
    { subst numb. unfold dict_contains, dict_get at 1.
      rewrite (Hav e).
      destruct (Nat.ltb_spec 0 (cnt e p)); [reflexivity |].
      rewrite fullbcount_spec. lia. }
    assert (Hav' : avail_inv b (p ++ [e]) (dict_set avail e (numb - 1)%Z)).
    { intros e'. rewrite dict_lookup_set, cnt_app, cnt_cons.
      change (py_eqb e e') with (N.eqb e e').
      change (cnt e' []) with 0%nat.
      destruct (N.eqb e e') eqn:E.
      - apply N.eqb_eq in E. subst e'.
        destruct (Nat.ltb_spec 0 (cnt e p + (1 + 0))); [| lia].
        f_equal. lia.
      - rewrite (Hav e'). rewrite Nat.add_0_r. reflexivity. }
    unfold Z.gtb.
    destruct (Z.compare_spec numb 0) as [Hz | Hneg | Hpos].
    + destruct (Nat.ltb_spec 0 (cnt e rem)) as [Hlt | Hge];
        [specialize (Hrem e); lia |].
      apply IH with (p := p ++ [e]); [exact Hav' |].
      intros c. rewrite Hrem, cnt_app, cnt_cons.
      change (cnt c []) with 0%nat.
      destruct (N.eqb e c) eqn:E; [| lia].
      apply N.eqb_eq in E. subst c. lia.
    + destruct (Nat.ltb_spec 0 (cnt e rem)) as [Hlt | Hge];
        [specialize (Hrem e); lia |].
      apply IH with (p := p ++ [e]); [exact Hav' |].
      intros c. rewrite Hrem, cnt_app, cnt_cons.
      change (cnt c []) with 0%nat.
      destruct (N.eqb e c) eqn:E; [| lia].
      apply N.eqb_eq in E. subst c. lia.
    + destruct (Nat.ltb_spec 0 (cnt e rem)) as [Hlt | Hge];
        [| specialize (Hrem e); lia].
      rewrite (IH (p ++ [e]) _ _ (remove_one e rem) Hav').
      * lia.
      * intros c. rewrite cnt_remove_one, Hrem, cnt_app, cnt_cons.
        change (cnt c []) with 0%nat.
        destruct (N.eqb e c); lia.
Qed.

Lemma quick_matches_spec (a b : str) :
  Difflib.quick_matches a b = Z.of_nat (common_count b a).
Proof.
  unfold Difflib.quick_matches.
  transitivity (0 + Z.of_nat (common_count b a))%Z; [| lia].
  apply (@quick_fold_spec b a [] [] 0%Z b).
  - intros e. reflexivity.
  - intros c. change (cnt c []) with 0%nat. lia.
Qed.

(** ** The similarity ratio *)

(** The number of matched elements [ratio] sums up. *)
Definition matches (a b : str) : Z :=
  match Difflib.get_matching_blocks a b with
  | Ok blocks => total blocks
  | _ => 0%Z
  end.

Definition similarity (a b : str) : Q :=
  Difflib.calculate_ratio (matches a b) (len a + len b).

(** [ratio] always returns: the fuel is enough and no index is out of
    range. *)
Lemma ratio_total (a b : str) : Difflib.ratio a b = Ok (similarity a b).
Proof.
  unfold Difflib.ratio, similarity, matches.
  destruct (get_matching_blocks_ok a b) as [blocks [s [E _]]].
  rewrite E. reflexivity.
Qed.

(** [quick_ratio] and [real_quick_ratio] are upper bounds of [ratio], as
    their documentation says. *)
Lemma matches_bounds (a b : str) :
  (0 <= matches a b <= Difflib.quick_matches a b)%Z
  /\ (Difflib.quick_matches a b <= Z.min (len a) (len b))%Z.
Proof.
  unfold matches.
  destruct (get_matching_blocks_ok a b) as [blocks [s [E [Hs [Ha Hb]]]]].
  rewrite E, <- Hs, quick_matches_spec.
  pose proof (@common_count_ge a b s Ha Hb) as Hge.
  pose proof (common_count_le a b) as H1.
  pose proof (common_count_le_avail a b) as H2.
  unfold len. lia.
Qed.

Lemma calculate_ratio_mono (m m' t : Z) :
  (m <= m')%Z ->
  (Difflib.calculate_ratio m t <= Difflib.calculate_ratio m' t)%Q.
Proof.
  intros Hm. unfold Difflib.calculate_ratio.
  destruct (t =? 0)%Z; [apply Qle_refl |].
  unfold Qle. cbn [Qnum Qden].
  apply Z.mul_le_mono_nonneg_r; lia.
Qed.

Lemma cutoff_upper_bounds (cutoff : Q) (a b : str) :
  Qle_bool cutoff (similarity a b) = true ->
  Qle_bool cutoff (Difflib.real_quick_ratio a b) = true
  /\ Qle_bool cutoff (Difflib.quick_ratio a b) = true.
Proof.
  rewrite !Qle_bool_iff. intros Hc.
  destruct (matches_bounds a b) as [[_ H1] H2].
  assert (Hq : (cutoff <= Difflib.quick_ratio a b)%Q).
  { eapply Qle_trans; [exact Hc |]. apply calculate_ratio_mono. exact H1. }
  split; [| exact Hq].
  eapply Qle_trans; [exact Hq |]. apply calculate_ratio_mono. exact H2.
Qed.

(** ** [get_close_matches] returns the greatest (score, word) pair *)

(** The possibilities whose ratio reaches the cutoff, with their scores. *)
Definition scored (word : str) (cutoff : Q) (possibilities : list str)
    : list (Q * str) :=
  map (fun x => (similarity x word, x))
      (filter (fun x => Qle_bool cutoff (similarity x word)) possibilities).

Lemma close_matches_loop (word : str) (cutoff : Q)
    (possibilities : list str) (acc : list (Q * str)) :
  for_each possibilities acc
    (fun result x =>
       if Qle_bool cutoff (Difflib.real_quick_ratio x word) then
         if Qle_bool cutoff (Difflib.quick_ratio x word) then
           r <- Difflib.ratio x word ;;
           if Qle_bool cutoff r then
             r' <- Difflib.ratio x word ;;
             Ok (result ++ [(r', x)])
           else Ok result
         else Ok result
       else Ok result)
  = Ok (acc ++ scored word cutoff possibilities).
Proof.
  revert acc. induction possibilities as [| x l IH]; intros acc; simpl.
  - rewrite app_nil_r. reflexivity.
  - unfold scored. simpl. rewrite ratio_total. simpl.
    destruct (Qle_bool cutoff (similarity x word)) eqn:E.
    + destruct (@cutoff_upper_bounds cutoff x word E) as [-> ->].
      simpl. rewrite IH. unfold scored. rewrite <- app_assoc. reflexivity.
    + destruct (Qle_bool cutoff (Difflib.real_quick_ratio x word));
        [destruct (Qle_bool cutoff (Difflib.quick_ratio x word)) |];
        simpl; apply IH.
Qed.

Lemma get_close_matches_spec (word : str) (possibilities : list str)
    (cutoff : Q) :
  Qle_bool 0 cutoff && Qle_bool cutoff 1 = true ->
  Difflib.get_close_matches word possibilities cutoff =
  Ok (map snd (Difflib.nlargest1 (scored word cutoff possibilities))).
Proof.
  intros Hc. unfold Difflib.get_close_matches. rewrite Hc. simpl.
  rewrite close_matches_loop. reflexivity.
Qed.

(** ** The order on (score, word) pairs *)

Lemma str_gtb_irrefl (s : str) : str_gtb s s = false.
Proof.
  induction s as [| c s IH]; simpl; [reflexivity |].
  rewrite N.eqb_refl. exact IH.
Qed.

Lemma str_gtb_trans (s t u : str) :
  str_gtb s t = true -> str_gtb t u = true -> str_gtb s u = true.
Proof.
  revert t u. induction s as [| c s IH]; intros [| d t] [| e u]; simpl;
    try discriminate; try reflexivity.
  destruct (N.eqb_spec c d) as [-> | Hcd];
    destruct (N.eqb_spec d e) as [-> | Hde].
  - apply IH.
  - intros _ H. destruct (N.eqb_spec d e); [contradiction | exact H].
  - intros H _. destruct (N.eqb_spec c e); [contradiction | exact H].
  - rewrite !N.ltb_lt. intros H1 H2.
    destruct (N.eqb_spec c e); [lia |]. apply N.ltb_lt. lia.
Qed.

Lemma str_gtb_total (s t : str) :
  s <> t -> str_gtb s t = true \/ str_gtb t s = true.
Proof.
  revert t. induction s as [| c s IH]; intros [| d t] Hne; simpl; auto;
    try congruence.
  destruct (N.eqb_spec c d) as [-> | Hcd].
  - rewrite N.eqb_refl. apply IH. congruence.
  - destruct (N.eqb_spec d c); [congruence |].
    rewrite !N.ltb_lt. lia.
Qed.

(** [p > q] on pairs, as a proposition. *)
Definition scored_gt (p q : Q * str) : Prop :=
  (fst q < fst p)%Q \/ (fst p == fst q /\ str_gtb (snd p) (snd q) = true)%Q.

Lemma scored_gtb_spec (p q : Q * str) :
  Difflib.scored_gtb p q = true <-> scored_gt p q.
Proof.
  destruct p as [s1 x1], q as [s2 x2]. unfold Difflib.scored_gtb, scored_gt.
  simpl. destruct (Qeq_bool s1 s2) eqn:Eq; simpl.
  - apply Qeq_bool_iff in Eq.
    change (py_eqb x1 x2) with (str_eqb x1 x2).
    destruct (str_eqb x1 x2) eqn:Ex; simpl.
    + apply str_eqb_eq in Ex. subst x2. rewrite str_gtb_irrefl.
      split; [discriminate |]. intros [Hlt | [_ H]]; [lra | discriminate].
    + split; [auto |]. intros [Hlt | [_ H]]; [lra | exact H].
  - assert (Hne : ~ (s1 == s2)%Q).
    { intros H. apply Qeq_bool_iff in H. congruence. }
    destruct (Qle_bool s1 s2) eqn:El; simpl.
    + apply Qle_bool_iff in El. split; [discriminate |].
      intros [Hlt | [H _]]; [lra | contradiction].
    + assert (~ (s1 <= s2)%Q).
      { intros H. apply Qle_bool_iff in H. congruence. }
      split; [intros _; left; lra | reflexivity].
Qed.

Lemma scored_gtb_false (p q : Q * str) :
  Difflib.scored_gtb p q = false <->
  (fst p <= fst q)%Q
  /\ ((fst p == fst q)%Q -> str_gtb (snd p) (snd q) = false).
Proof.
  pose proof (scored_gtb_spec p q) as Hs. unfold scored_gt in Hs.
  destruct (Difflib.scored_gtb p q).
  - split; [discriminate |]. intros [Hle Htie].
    destruct (proj1 Hs eq_refl) as [Hlt | [Heq Hgt]]; [lra |].
    rewrite (Htie Heq) in Hgt. discriminate.
  - split; [| reflexivity]. intros _. split.
    + destruct (Qlt_le_dec (fst q) (fst p)) as [Hlt | Hle]; [| exact Hle].
      assert (false = true) by (apply Hs; left; exact Hlt). discriminate.
    + intros Heq. destruct (str_gtb (snd p) (snd q)) eqn:E; [| reflexivity].
      symmetry. apply Hs. right. auto.
Qed.

Lemma scored_gt_trans (p q r : Q * str) :
  scored_gt p q -> scored_gt q r -> scored_gt p r.
Proof.
  unfold scored_gt. intros [H1 | [H1 G1]] [H2 | [H2 G2]].
  - left. lra.
  - left. lra.
  - left. lra.
  - right. split; [lra |]. eapply str_gtb_trans; eauto.
Qed.

(** [p > q >= r] gives [p > r]: the order is total up to equal scores on
    the same word. *)
Lemma scored_gt_ge_trans (p q r : Q * str) :
  scored_gt p q -> Difflib.scored_gtb r q = false -> scored_gt p r.
Proof.
  rewrite scored_gtb_false. unfold scored_gt.
  intros [H1 | [H1 G1]] [Hle Htie].
  - left. lra.
  - destruct (Qlt_le_dec (fst r) (fst q)) as [Hlt | Hge]; [left; lra |].
    assert (Heq : (fst r == fst q)%Q) by lra.
    right. split; [lra |].
    specialize (Htie Heq).
    destruct (list_eq_dec N.eq_dec (snd r) (snd q)) as [-> | Hne];
      [exact G1 |].
    destruct (@str_gtb_total (snd r) (snd q) Hne) as [H | H]; [congruence |].
    eapply str_gtb_trans; eauto.
Qed.

Lemma max_from_In (l : list (Q * str)) (cur : Q * str) :
  In (Difflib.max_from cur l) (cur :: l).
Proof.
  revert cur. induction l as [| item l IH]; intros cur; simpl; [auto |].
  destruct (IH (if Difflib.scored_gtb item cur then item else cur))
    as [H | H]; [| auto].
  rewrite <- H. destruct (Difflib.scored_gtb item cur); auto.
Qed.

Lemma max_from_greatest (l : list (Q * str)) :
  forall cur x : Q * str,
    In x (cur :: l) -> Difflib.scored_gtb x (Difflib.max_from cur l) = false.
Proof.
  induction l as [| item l IH]; intros cur x Hin.
  - destruct Hin as [<- | []]. simpl.
    destruct (Difflib.scored_gtb cur cur) eqn:E; [| reflexivity].
    apply scored_gtb_spec in E. destruct E as [H | [_ H]].
    + lra.
    + rewrite str_gtb_irrefl in H. discriminate.
  - cbn [Difflib.max_from].
    set (cur' := if Difflib.scored_gtb item cur then item else cur).
    set (m := Difflib.max_from cur' l).
    assert (Hcur' : Difflib.scored_gtb cur' m = false)
      by (apply IH; left; reflexivity).
    destruct Hin as [<- | [<- | Hin]].
    + subst cur'. destruct (Difflib.scored_gtb item cur) eqn:E;
        [| exact Hcur'].
      destruct (Difflib.scored_gtb cur m) eqn:E'; [| reflexivity].
      apply scored_gtb_spec in E, E'.
      pose proof (@scored_gt_trans item cur m E E') as Hgt.
      apply scored_gtb_spec in Hgt. congruence.
    + subst cur'. destruct (Difflib.scored_gtb item cur) eqn:E;
        [exact Hcur' |].
      destruct (Difflib.scored_gtb item m) eqn:E'; [| reflexivity].
      apply scored_gtb_spec in E'.
      pose proof (@scored_gt_ge_trans item m cur E' Hcur') as Hgt.
      apply scored_gtb_spec in Hgt. congruence.
    + apply IH. right. exact Hin.
Qed.

(** What [heapq.nlargest(1, ...)] returns: nothing for an empty list, else
    an item of the list that no item exceeds. *)
Lemma nlargest1_spec (l : list (Q * str)) :
  (l = [] /\ Difflib.nlargest1 l = [])
  \/ exists m, Difflib.nlargest1 l = [m] /\ In m l
               /\ forall x, In x l -> Difflib.scored_gtb x m = false.
Proof.
  destruct l as [| first l]; [left; auto | right].
  exists (Difflib.max_from first l). split; [reflexivity |].
  split; [apply max_from_In |]. intros x Hx. apply max_from_greatest.
  exact Hx.
Qed.

(** Two greatest items carry the same word. *)
Lemma greatest_word_unique (p q : Q * str) :
  Difflib.scored_gtb p q = false -> Difflib.scored_gtb q p = false ->
  snd p = snd q.
Proof.
  rewrite !scored_gtb_false. intros [H1 T1] [H2 T2].
  assert (Heq : (fst p == fst q)%Q) by lra.
  destruct (list_eq_dec N.eq_dec (snd p) (snd q)) as [E | Hne]; [exact E |].
  destruct (@str_gtb_total (snd p) (snd q) Hne) as [H | H].
  - rewrite (T1 Heq) in H. discriminate.
  - rewrite T2 in H; [discriminate | lra].
Qed.

Lemma scored_In (word : str) (cutoff : Q) (possibilities : list str)
    (p : Q * str) :
  In p (scored word cutoff possibilities) <->
  In (snd p) possibilities
  /\ Qle_bool cutoff (similarity (snd p) word) = true
  /\ fst p = similarity (snd p) word.
Proof.
  unfold scored. rewrite in_map_iff. split.
  - intros [x [<- Hx]]. apply filter_In in Hx. simpl. tauto.
  - intros [Hin [Hc Hf]]. exists (snd p). split.
    + destruct p as [s x]. simpl in *. congruence.
    + apply filter_In. auto.
Qed.

(** The result of [get_close_matches] does not depend on the order in
    which the possibilities are listed. *)
Lemma nlargest1_scored_perm (word : str) (cutoff : Q) (l l' : list str) :
  Permutation l l' ->
  Difflib.nlargest1 (scored word cutoff l) =
  Difflib.nlargest1 (scored word cutoff l').
Proof.
  intros Hp.
  assert (Hin : forall p, In p (scored word cutoff l) <->
                          In p (scored word cutoff l')).
  { intros p. rewrite !scored_In.
    split; intros [H1 H2]; split; auto.
    - eapply Permutation_in; eauto.
    - eapply Permutation_in; [apply Permutation_sym |]; eauto. }
  destruct (nlargest1_spec (scored word cutoff l))
    as [[E1 R1] | [m [R1 [I1 G1]]]];
    destruct (nlargest1_spec (scored word cutoff l'))
      as [[E2 R2] | [m' [R2 [I2 G2]]]].
  - congruence.
  - apply Hin in I2. rewrite E1 in I2. destruct I2.
  - apply Hin in I1. rewrite E2 in I1. destruct I1.
  - rewrite R1, R2. f_equal.
    assert (Hw : snd m = snd m').
    { apply greatest_word_unique.
      - apply G2. apply Hin. exact I1.
      - apply G1. apply Hin. exact I2. }
    apply scored_In in I1. apply scored_In in I2.
    destruct m as [s x], m' as [s' x']. simpl in *. subst x'.
    f_equal. destruct I1 as [_ [_ ->]]. destruct I2 as [_ [_ ->]].
    reflexivity.
Qed.

(** ** Dictionaries with the same entries in another order *)

Section DictOrder.

Context {K V : Type} `{PyEqLaws K}.

Lemma dict_lookup_iff (d : dict K V) (k : K) (v : V) :
  NoDup (dict_keys d) -> (dict_lookup d k = Some v <-> In (k, v) d).
Proof.
  intros Hnd. split; [apply dict_lookup_In |].
  induction d as [| [k0 v0] d IH]; simpl; [tauto |].
  inversion Hnd as [| ? ? Hnotin Hnd']; subst.
  intros [[= -> ->] | Hin].
  - rewrite py_eqb_refl. reflexivity.
  - destruct (py_eqb k0 k) eqn:E.
    + apply py_eqb_eq in E. subst k0. exfalso. apply Hnotin.
      unfold dict_keys. apply in_map_iff. exists (k, v). auto.
    + apply IH; assumption.
Qed.

Lemma dict_lookup_perm (d d' : dict K V) (k : K) :
  NoDup (dict_keys d) -> Permutation d d' ->
  dict_lookup d k = dict_lookup d' k.
Proof.
  intros Hnd Hp.
  assert (Hnd' : NoDup (dict_keys d')).
  { eapply Permutation_NoDup; [| exact Hnd].
    unfold dict_keys. apply Permutation_map. exact Hp. }
  destruct (dict_lookup d k) as [v |] eqn:E.
  - symmetry. apply dict_lookup_iff; [exact Hnd' |].
    eapply Permutation_in; [exact Hp |].
    apply dict_lookup_iff in E; assumption.
  - destruct (dict_lookup d' k) as [v' |] eqn:E'; [| reflexivity].
    apply dict_lookup_iff in E'; [| exact Hnd'].
    apply Permutation_sym in Hp.
    pose proof (Permutation_in _ Hp E') as Hin.
    apply dict_lookup_iff in Hin; [| exact Hnd]. congruence.
Qed.

End DictOrder.

(** ** [strip] *)

Definition blank (s : str) : Prop := Forall (fun c => isspace c = true) s.

(** A string that neither starts nor ends with white space (and is not
    empty). *)
Definition trimmed (s : str) : bool :=
  match s with
  | [] => false
  | c :: _ => negb (isspace c)
  end
  && match rev s with
     | [] => false
     | c :: _ => negb (isspace c)
     end.

Lemma lstrip_blank (ws s : str) : blank ws -> lstrip (ws ++ s) = lstrip s.
Proof.
  intros Hws. induction Hws as [| c ws Hc _ IH]; simpl; [reflexivity |].
  rewrite Hc. exact IH.
Qed.

Lemma lstrip_head (s : str) :
  match s with [] => false | c :: _ => negb (isspace c) end = true ->
  lstrip s = s.
Proof.
  destruct s as [| c s]; simpl; [discriminate |].
  destruct (isspace c); [discriminate | reflexivity].
Qed.

Lemma strip_blank (s : str) : blank s -> strip s = [].
Proof.
  intros Hs. unfold strip.
  replace (lstrip s) with (@nil char); [reflexivity |].
  rewrite <- (app_nil_r s). rewrite lstrip_blank by exact Hs. reflexivity.
Qed.

Lemma strip_padded (ws1 p ws2 : str) :
  blank ws1 -> blank ws2 -> trimmed p = true ->
  strip (ws1 ++ p ++ ws2) = p.
Proof.
  unfold trimmed. intros H1 H2 Hp. apply andb_true_iff in Hp.
  destruct Hp as [Hh Hl]. unfold strip, rstrip.
  rewrite lstrip_blank by exact H1.
  rewrite (@lstrip_head (p ++ ws2)).
  2:{ destruct p; [discriminate | exact Hh]. }
  rewrite rev_app_distr, lstrip_blank.
  2:{ apply Forall_rev. exact H2. }
  rewrite (@lstrip_head (rev p)) by exact Hl. apply rev_involutive.
Qed.

Lemma strip_trimmed (p : str) : trimmed p = true -> strip p = p.
Proof.
  intros Hp. rewrite <- (@strip_padded [] p []) at 2;
    [| constructor | constructor | exact Hp].
  rewrite app_nil_r. reflexivity.
Qed.

(** ** Building the reply table *)

(** The (prompt, response) pairs of a flat list; an unpaired last element
    is left out. *)
Fixpoint pairs (conversation : list str) : list (str * str) :=
  match conversation with
  | x :: v :: rest => (x, v) :: pairs rest
  | _ => []
  end.

(** The table: one assignment per pair, in order. *)
Definition table_of (lower : str -> str) (conversation : list str)
    : dict str str :=
  fold_left (fun (mapping : dict str str) '(x, v) =>
               dict_set mapping (lower (strip x)) v)
            (pairs conversation) [].

Lemma pair_ind (P : list str -> Prop) :
  P [] -> (forall x, P [x]) -> (forall x v l, P l -> P (x :: v :: l)) ->
  forall l, P l.
Proof.
  intros H0 H1 H2 l.
  enough (P l /\ forall x, P (x :: l)) by tauto.
  induction l as [| y l [IH1 IH2]]; split; auto.
Qed.

Lemma build_mapping_loop (lower : str -> str) (conversation : list str) :
  forall (rest pre : list str) (s : nat) (mapping : dict str str),
    conversation = pre ++ rest -> List.length pre = (2 * s)%nat ->
    for_each
      (map (fun n => (0 + 2 * Z.of_nat n)%Z)
           (seq s (List.length rest / 2)))
      mapping
      (fun mapping i =>
         x <- list_getitem conversation i ;;
         let k := lower (strip x) in
         v <- list_getitem conversation (i + 1) ;;
         Ok (dict_set mapping k v))
    = Ok (fold_left (fun (mapping : dict str str) '(x, v) =>
                       dict_set mapping (lower (strip x)) v)
                    (pairs rest) mapping).
Proof.
  intros rest. induction rest as [| x | x v rest IH] using pair_ind;
    intros pre s mapping Hc Hl.
  - reflexivity.
  - reflexivity.
  - replace (List.length (x :: v :: rest) / 2)%nat
      with (S (List.length rest / 2)).
    2:{ cbn [List.length].
        replace (S (S (List.length rest)))
          with (List.length rest + 1 * 2)%nat by lia.
        rewrite Nat.div_add by lia. lia. }
    cbn [seq map for_each pairs fold_left].
    assert (Hx : at_pos conversation (0 + 2 * Z.of_nat s)%Z x).
    { exists (2 * s)%nat. split; [lia |].
      rewrite Hc, nth_error_app2 by lia.
      replace (2 * s - List.length pre)%nat with 0%nat by lia.
      reflexivity. }
    assert (Hv : at_pos conversation (0 + 2 * Z.of_nat s + 1)%Z v).
    { exists (2 * s + 1)%nat. split; [lia |].
      rewrite Hc, nth_error_app2 by lia.
      replace (2 * s + 1 - List.length pre)%nat with 1%nat by lia.
      reflexivity. }
    rewrite (list_getitem_at Hx). cbn [bind].
    rewrite (list_getitem_at Hv). cbn [bind].
    apply (IH (pre ++ [x; v]) (S s)).
    + rewrite <- app_assoc. exact Hc.
    + rewrite length_app. simpl. lia.
Qed.

(** The loop of [fallback_get_response] never raises, whatever the length
    of the list, and builds the table of its pairs. *)
Lemma build_mapping_spec (lower : str -> str) (conversation : list str) :
  App.build_mapping lower conversation = Ok (table_of lower conversation).
Proof.
  unfold App.build_mapping, table_of, py_range.
  replace (Z.to_nat ((len conversation - 1 - 0 + 2 - 1) / 2))
    with (List.length conversation / 2)%nat.
  2:{ unfold len.
      replace (Z.of_nat (List.length conversation) - 1 - 0 + 2 - 1)%Z
        with (Z.of_nat (List.length conversation)) by lia.
      change 2%Z with (Z.of_nat 2).
      rewrite <- Nat2Z.inj_div, Nat2Z.id. reflexivity. }
  apply (@build_mapping_loop lower conversation conversation [] 0%nat []);
    reflexivity.
Qed.

Lemma table_of_ext (lower lower' : str -> str) (conversation : list str) :
  (forall x v, In (x, v) (pairs conversation) ->
               lower (strip x) = lower' (strip x)) ->
  table_of lower conversation = table_of lower' conversation.
Proof.
  unfold table_of. generalize (@nil (str * str)).
  induction (pairs conversation) as [| [x v] l IH]; intros mapping Hagree;
    simpl; [reflexivity |].
  rewrite (Hagree x v) by (left; reflexivity).
  apply IH. intros x' v' Hin. apply (Hagree x' v'). right. exact Hin.
Qed.

Lemma pairs_removelast (conversation : list str) :
  Nat.odd (List.length conversation) = true ->
  pairs (removelast conversation) = pairs conversation.
Proof.
  induction conversation as [| x | x v l IH] using pair_ind.
  - reflexivity.
  - reflexivity.
  - intros Hodd. change (Nat.odd (List.length l) = true) in Hodd.
    destruct l as [| y l']; [discriminate |].
    change (removelast (x :: v :: y :: l'))
      with (x :: v :: removelast (y :: l')).
    cbn [pairs]. rewrite IH by exact Hodd. reflexivity.
Qed.

(** ** The responder, step by step *)

Lemma respond_unfold (lower : str -> str) (mapping : dict str str)
    (user_text : str) :
  App.respond lower mapping user_text =
  match dict_lookup mapping (lower (strip user_text)) with
  | Some v => Ok v
  | None =>
      match Difflib.nlargest1
              (scored (lower (strip user_text)) (6 # 10)
                      (dict_keys mapping)) with
      | best :: _ => dict_getitem mapping (snd best)
      | [] => Ok (App.keyword_reply mapping (lower (strip user_text)))
      end
  end.
Proof.
  unfold App.respond, dict_contains, dict_getitem.
  destruct (dict_lookup mapping (lower (strip user_text))) as [v |];
    [reflexivity |].
  rewrite get_close_matches_spec by reflexivity. cbn [bind].
  destruct (Difflib.nlargest1 _) as [| best rest]; reflexivity.
Qed.

(** [respond] always returns: either a stored response or a keyword
    reply. *)
Lemma respond_total (lower : str -> str) (mapping : dict str str)
    (user_text : str) :
  exists reply,
    App.respond lower mapping user_text = Ok reply
    /\ (In reply (map snd mapping)
        \/ reply = App.keyword_reply mapping (lower (strip user_text))).
Proof.
  rewrite respond_unfold.
  destruct (dict_lookup mapping (lower (strip user_text))) as [v |] eqn:E.
  - exists v. split; [reflexivity | left].
    apply dict_lookup_In in E. apply in_map_iff. exists (lower (strip user_text), v). auto.
  - destruct (nlargest1_spec
                (scored (lower (strip user_text)) (6 # 10)
                        (dict_keys mapping)))
      as [[_ ->] | [m [-> [Hin _]]]].
    + eexists. split; [reflexivity | right; reflexivity].
    + apply scored_In in Hin. destruct Hin as [Hk _].
      destruct (dict_lookup_keys _ _ Hk) as [v Hv].
      unfold dict_getitem. rewrite Hv. exists v. split; [reflexivity |].
      left. apply dict_lookup_In in Hv. apply in_map_iff.
      exists (snd m, v). auto.
Qed.

(** ** Letter case *)

(** [c] and [d] are the same character up to the case of an ASCII
    letter. *)
Definition same_letter (c d : char) : Prop :=
  ascii_lower_char c = ascii_lower_char d.

(** [v] is [prompt] with the case of some letters changed and white space
    added at either end. *)
Definition variation (prompt v : str) : Prop :=
  exists ws1 p ws2,
    v = ws1 ++ p ++ ws2 /\ blank ws1 /\ blank ws2
    /\ Forall2 same_letter prompt p.

Ltac decide_comparisons :=
  repeat match goal with
         | |- context [N.leb ?x ?y] =>
             destruct (N.leb_spec x y); try lia
         | |- context [N.eqb ?x ?y] =>
             destruct (N.eqb_spec x y); try lia
         end.

Lemma isspace_ascii_lower_char (c : char) :
  isspace (ascii_lower_char c) = isspace c.
Proof.
  unfold ascii_lower_char.
  destruct (N.leb_spec 65 c); [| reflexivity].
  destruct (N.leb_spec c 90); [| reflexivity].
  cbn [andb]. unfold isspace.
  decide_comparisons; reflexivity.
Qed.

Lemma is_ascii_lower_char (c : char) :
  is_ascii (ascii_lower_char c) <-> is_ascii c.
Proof.
  unfold is_ascii, ascii_lower_char.
  destruct (N.leb_spec 65 c); destruct (N.leb_spec c 90); cbn [andb]; lia.
Qed.

Lemma same_letter_isspace (c d : char) :
  same_letter c d -> isspace c = isspace d.
Proof.
  unfold same_letter. intros E.
  rewrite <- (isspace_ascii_lower_char c), E.
  apply isspace_ascii_lower_char.
Qed.

Lemma Forall2_same_letter_rev (s t : str) :
  Forall2 same_letter s t -> Forall2 same_letter (rev s) (rev t).
Proof.
  induction 1 as [| c d s t Hcd _ IH]; simpl; [constructor |].
  apply Forall2_app; [exact IH |]. constructor; [exact Hcd | constructor].
Qed.

Lemma same_letter_lower (s t : str) :
  Forall2 same_letter s t -> ascii_lower s = ascii_lower t.
Proof.
  induction 1 as [| c d s t Hcd _ IH]; simpl; [reflexivity |].
  unfold same_letter in Hcd. rewrite Hcd. f_equal. exact IH.
Qed.

Lemma same_letter_ascii (s t : str) :
  Forall2 same_letter s t -> Forall is_ascii s -> Forall is_ascii t.
Proof.
  induction 1 as [| c d s t Hcd _ IH]; intros Hs; [constructor |].
  inversion Hs as [| ? ? Hc Hs']; subst.
  constructor; [| auto].
  apply is_ascii_lower_char. unfold same_letter in Hcd. rewrite <- Hcd.
  apply is_ascii_lower_char. exact Hc.
Qed.

Lemma same_letter_trimmed (s t : str) :
  Forall2 same_letter s t -> trimmed s = true -> trimmed t = true.
Proof.
  intros Hst. pose proof (@Forall2_same_letter_rev s t Hst) as Hrev.
  unfold trimmed.
  destruct Hst as [| c d s t Hcd _]; [discriminate |].
  destruct Hrev as [| c' d' s' t' Hcd' _]; [rewrite andb_false_r; discriminate |].
  rewrite (@same_letter_isspace c d Hcd), (@same_letter_isspace c' d' Hcd').
  auto.
Qed.

Lemma forallb_is_ascii (s : str) :
  forallb is_asciib s = true -> Forall is_ascii s.
Proof.
  intros H. apply Forall_forall. intros c Hc.
  rewrite forallb_forall in H. apply N.ltb_lt. apply H. exact Hc.
Qed.

(** ** Substrings under normalization *)

Lemma startswith_iff (s w : str) :
  startswith s w = true <-> exists post, s = w ++ post.
Proof.
  revert s. induction w as [| c w IH]; intros s.
  - split; [intros _; exists s; reflexivity |].
    intros _. destruct s; reflexivity.
  - destruct s as [| d s]; simpl.
    + split; [discriminate | intros [post H]; discriminate].
    + rewrite andb_true_iff, N.eqb_eq, IH. split.
      * intros [-> [post ->]]. exists post. reflexivity.
      * intros [post H]. injection H as -> ->. eauto.
Qed.

Lemma contains_iff (w s : str) :
  contains w s = true <-> exists pre post, s = pre ++ w ++ post.
Proof.
  induction s as [| d s IH].
  - cbn [contains]. rewrite orb_false_r, startswith_iff. split.
    + intros [post H]. exists [], post. exact H.
    + intros [pre [post H]]. destruct pre; [eauto | discriminate].
  - cbn [contains]. rewrite orb_true_iff, startswith_iff, IH. split.
    + intros [[post H] | [pre [post H]]].
      * exists [], post. exact H.
      * exists (d :: pre), post. rewrite H. reflexivity.
    + intros [[| e pre] [post H]].
      * left. exists post. exact H.
      * right. injection H as -> ->. eauto.
Qed.

Lemma lstrip_keeps (w pre post : str) :
  match w with [] => false | c :: _ => negb (isspace c) end = true ->
  exists pre', lstrip (pre ++ w ++ post) = pre' ++ w ++ post.
Proof.
  intros Hw. induction pre as [| c pre IH].
  - exists []. apply lstrip_head. destruct w; [discriminate | exact Hw].
  - simpl. destruct (isspace c); [exact IH |].
    exists (c :: pre). reflexivity.
Qed.

Lemma trimmed_rev (w : str) : trimmed w = true -> trimmed (rev w) = true.
Proof.
  unfold trimmed. rewrite rev_involutive, !andb_true_iff. tauto.
Qed.

Lemma strip_keeps (w pre post : str) :
  trimmed w = true ->
  exists pre' post', strip (pre ++ w ++ post) = pre' ++ w ++ post'.
Proof.
  intros Hw. pose proof (@trimmed_rev w Hw) as Hr.
  unfold trimmed in Hw, Hr.
  apply andb_true_iff in Hw. destruct Hw as [Hh _].
  apply andb_true_iff in Hr. destruct Hr as [Hl _].
  unfold strip, rstrip.
  destruct (@lstrip_keeps w pre post Hh) as [pre' ->].
  rewrite !rev_app_distr, <- app_assoc.
  destruct (@lstrip_keeps (rev w) (rev post) (rev pre') Hl) as [post' ->].
  exists pre', (rev post').
  rewrite !rev_app_distr, !rev_involutive, <- app_assoc. reflexivity.
Qed.

Lemma Forall_lstrip (P : char -> Prop) (s : str) :
  Forall P s -> Forall P (lstrip s).
Proof.
  induction 1 as [| c s Hc Hs IH]; simpl; [constructor |].
  destruct (isspace c); [exact IH | constructor; assumption].
Qed.

Lemma Forall_strip (P : char -> Prop) (s : str) :
  Forall P s -> Forall P (strip s).
Proof.
  intros Hs. unfold strip, rstrip.
  apply Forall_rev, Forall_lstrip, Forall_rev, Forall_lstrip. exact Hs.
Qed.

(** A word without capitals and without white space at its ends that
    occurs in [s] still occurs once [s] is stripped and lower-cased. *)
Lemma contains_normalized (w s : str) :
  trimmed w = true -> ascii_lower w = w ->
  contains w s = true -> contains w (ascii_lower (strip s)) = true.
Proof.
  intros Ht Hl Hc. apply contains_iff in Hc.
  destruct Hc as [pre [post ->]].
  destruct (@strip_keeps w pre post Ht) as [pre' [post' ->]].
  apply contains_iff. exists (ascii_lower pre'), (ascii_lower post').
  unfold ascii_lower in *. rewrite !map_app, Hl. reflexivity.
Qed.

(** ** The reply table of [app.py] *)

(** The table [fallback_get_response] rebuilds at every call. *)
Definition TABLE : dict str str := table_of ascii_lower App.CONVERSATION.

(** What is checked, by evaluation, of every pair of the conversation
    list: the prompt is ASCII text without white space at its ends, and
    the table returns its response under its lower-cased form. *)
Definition pair_checked (xv : str * str) : bool :=
  let '(x, v) := xv in
  trimmed x && forallb is_asciib x
  && match dict_lookup TABLE (ascii_lower x) with
     | Some v' => str_eqb v' v
     | None => false
     end.

Lemma pairs_checked :
  forallb pair_checked (pairs App.CONVERSATION) = true.
Proof. vm_compute. reflexivity. Qed.

Lemma table_values_nonempty :
  forallb (fun v => negb (str_eqb v [])) (map snd TABLE) = true.
Proof. vm_compute. reflexivity. Qed.

Lemma table_size :
  List.length (pairs App.CONVERSATION) = 35%nat
  /\ List.length TABLE = 35%nat
  /\ List.length Main.mapping = 7%nat.
Proof. vm_compute. auto. Qed.

(** ** Words *)

(** [s.split()]: the maximal runs of characters that are not white
    space. *)
Fixpoint split_from (cur : str) (s : str) : list str :=
  match s with
  | [] => match cur with [] => [] | _ :: _ => [rev cur] end
  | c :: s' =>
      if isspace c then
        match cur with
        | [] => split_from [] s'
        | _ :: _ => rev cur :: split_from [] s'
        end
      else split_from (c :: cur) s'
  end.

Definition words (s : str) : list str := split_from [] s.

Definition greetings : list str := [py "hi"; py "hello"; py "hey"].

(** ** The fuzzy step *)

Lemma scored_nil (word : str) (cutoff : Q) (possibilities : list str) :
  (forall k, In k possibilities -> (similarity k word < cutoff)%Q) ->
  scored word cutoff possibilities = [].
Proof.
  intros Hall. unfold scored.
  induction possibilities as [| x l IH]; simpl; [reflexivity |].
  destruct (Qle_bool cutoff (similarity x word)) eqn:E.
  - apply Qle_bool_iff in E.
    specialize (Hall x (or_introl eq_refl)). lra.
  - apply IH. intros k Hk. apply Hall. right. exact Hk.
Qed.

Lemma ratio_Ok (a b : str) (r : Q) :
  Difflib.ratio a b = Ok r -> r = similarity a b.
Proof. rewrite ratio_total. intros [= ->]. reflexivity. Qed.

(** With no exact match and every key below the cutoff, the fuzzy step
    finds nothing and the keyword rules decide. *)
Lemma no_close_match (lower : str -> str) (mapping : dict str str)
    (user_text : str) :
  dict_contains mapping (lower (strip user_text)) = false ->
  (forall k r,
     In k (dict_keys mapping) ->
     Difflib.ratio k (lower (strip user_text)) = Ok r ->
     (r < 6 # 10)%Q) ->
  Difflib.get_close_matches (lower (strip user_text))
                            (dict_keys mapping) (6 # 10) = Ok []
  /\ App.respond lower mapping user_text
     = Ok (App.keyword_reply mapping (lower (strip user_text))).
Proof.
  set (key := lower (strip user_text)).
  intros Hnot Hlow. unfold dict_contains in Hnot.
  assert (Hnone : dict_lookup mapping key = None)
    by (destruct (dict_lookup mapping key); [discriminate | reflexivity]).
  assert (Hnil : scored key (6 # 10) (dict_keys mapping) = []).
  { apply scored_nil. intros k Hk. apply (Hlow k _ Hk).
    apply ratio_total. }
  split.
  - rewrite get_close_matches_spec by reflexivity. rewrite Hnil.
    reflexivity.
  - rewrite respond_unfold. fold key. rewrite Hnone, Hnil. reflexivity.
Qed.

(** C10 as it is worded: a table of 34 pairs in [app.py], one of 7
    entries in [main.py], and an input on which the two responders
    disagree. *)
Definition responders_differ_with_sizes (lower : str -> str)
    (app_pairs main_entries : nat) : Prop :=
  List.length (pairs App.CONVERSATION) = app_pairs
  /\ List.length Main.mapping = main_entries
  /\ exists input reply,
       App.fallback_get_response lower input = Ok reply
       /\ reply <> Main.fallback_get_response lower input.

Section Claims.

Variable str_lower : str -> str.
Variable polarity_scores : str -> dict str Q.

(** All that is assumed of [str.lower]: its effect on ASCII text. *)
Hypothesis str_lower_ascii :
  forall s, Forall is_ascii s -> str_lower s = ascii_lower s.

Lemma build_table : App.build_mapping str_lower App.CONVERSATION = Ok TABLE.
Proof.
  rewrite build_mapping_spec. f_equal. unfold TABLE.
  apply table_of_ext. intros x v Hin.
  pose proof pairs_checked as Hall. rewrite forallb_forall in Hall.
  specialize (Hall _ Hin). unfold pair_checked in Hall.
  apply andb_true_iff in Hall. destruct Hall as [Hall _].
  apply andb_true_iff in Hall. destruct Hall as [Ht Ha].
  rewrite (@strip_trimmed x Ht).
  apply str_lower_ascii. apply forallb_is_ascii. exact Ha.
Qed.

Lemma fallback_is_respond (user_text : str) :
  App.fallback_get_response str_lower user_text =
  App.respond str_lower TABLE user_text.
Proof. unfold App.fallback_get_response. rewrite build_table. reflexivity. Qed.

(** C1. Every prompt of the conversation list, typed in any letter case
    and with any white space around it, gets exactly its paired
    response. *)
Theorem C1_exact_match (prompt response v : str) :
  In (prompt, response) (pairs App.CONVERSATION) ->
  variation prompt v ->
  App.fallback_get_response str_lower v = Ok response.
Proof.
  intros Hin [ws1 [p [ws2 [-> [H1 [H2 Hv]]]]]].
  pose proof pairs_checked as Hall. rewrite forallb_forall in Hall.
  specialize (Hall _ Hin). unfold pair_checked in Hall.
  apply andb_true_iff in Hall. destruct Hall as [Hall Hl].
  apply andb_true_iff in Hall. destruct Hall as [Ht Ha].
  rewrite fallback_is_respond, respond_unfold.
  rewrite (@strip_padded ws1 p ws2 H1 H2 (@same_letter_trimmed prompt p Hv Ht)).
  rewrite str_lower_ascii
    by (apply (@same_letter_ascii prompt p Hv); apply forallb_is_ascii;
        exact Ha).
  rewrite <- (@same_letter_lower prompt p Hv).
  destruct (dict_lookup TABLE (ascii_lower prompt)) as [v' |];
    [| discriminate].
  apply str_eqb_eq in Hl. subst v'. reflexivity.
Qed.

(** C2, as the code has it.  A list of odd length is not rejected: its
    last, unpaired element is ignored and the table of the remaining pairs
    is returned. *)
Theorem C2_odd_length_truncated (conversation : list str) :
  Nat.odd (List.length conversation) = true ->
  App.build_mapping str_lower conversation
  = Ok (table_of str_lower (removelast conversation))
  /\ App.build_mapping str_lower conversation
     = App.build_mapping str_lower (removelast conversation).
Proof.
  intros Hodd. rewrite !build_mapping_spec. unfold table_of.
  rewrite (@pairs_removelast conversation Hodd). auto.
Qed.

(** C4. The label is [Positive] from a compound score of 0.5 upwards,
    [Negative] from -0.5 downwards and [Neutral] strictly in between, in
    [app.py] and in [main.py] alike, and the score returned is the
    scorer's compound score. *)
Theorem C4_sentiment_thresholds (text : str) (c : Q) :
  dict_lookup (polarity_scores text) (py "compound") = Some c ->
  App.score (App.analyze_sentiment polarity_scores text) = c
  /\ ((1 # 2 <= c)%Q ->
      App.label (App.analyze_sentiment polarity_scores text) = py "Positive"
      /\ Main.get_sentiment_label polarity_scores text
         = Ok (py "Positive", c))
  /\ ((c <= - (1 # 2))%Q ->
      App.label (App.analyze_sentiment polarity_scores text) = py "Negative"
      /\ Main.get_sentiment_label polarity_scores text
         = Ok (py "Negative", c))
  /\ ((- (1 # 2) < c < 1 # 2)%Q ->
      App.label (App.analyze_sentiment polarity_scores text) = py "Neutral"
      /\ Main.get_sentiment_label polarity_scores text
         = Ok (py "Neutral", c)).
Proof.
  intros Hc.
  unfold App.analyze_sentiment, Main.get_sentiment_label, dict_get,
    dict_getitem.
  rewrite Hc. cbn [App.score App.label bind].
  split; [reflexivity |].
  destruct (Qle_bool (1 # 2) c) eqn:Epos.
  - apply Qle_bool_iff in Epos.
    split; [auto |]. split; intros H; exfalso; lra.
  - assert (Hlt : ~ (1 # 2 <= c)%Q).
    { intros H. apply Qle_bool_iff in H. congruence. }
    split; [intros H; contradiction |].
    destruct (Qle_bool c (- (1 # 2))) eqn:Eneg.
    + apply Qle_bool_iff in Eneg.
      split; [auto |]. intros H. exfalso. lra.
    + split; [| auto].
      intros H. apply Qle_bool_iff in H. congruence.
Qed.

Lemma keyword_reply_nonempty (key : str) : App.keyword_reply TABLE key <> [].
Proof.
  unfold App.keyword_reply.
  destruct (existsb _ _); [vm_compute; discriminate |].
  destruct (existsb _ _); [vm_compute; discriminate |].
  destruct (_ || _); vm_compute; discriminate.
Qed.

(** C6. On every input string the responder returns, without raising and
    within its fuel, a reply that is not the empty string. *)
Theorem C6_total_nonempty (user_text : str) :
  exists reply,
    App.fallback_get_response str_lower user_text = Ok reply
    /\ reply <> [].
Proof.
  rewrite fallback_is_respond.
  destruct (respond_total str_lower TABLE user_text)
    as [reply [E Hcase]].
  exists reply. split; [exact E |].
  destruct Hcase as [Hin | ->].
  - pose proof table_values_nonempty as Hall.
    rewrite forallb_forall in Hall. specialize (Hall _ Hin).
    intros ->. discriminate.
  - apply keyword_reply_nonempty.
Qed.

(** C7. Empty and white-space-only input gets the generic apology. *)
Theorem C7_blank_input (user_text : str) :
  blank user_text ->
  App.fallback_get_response str_lower user_text
  = Ok (py "Sorry — I don't have a precise answer for that yet. Could you rephrase or ask about fabrics, sizes, orders, or returns?").
Proof.
  intros Hb. rewrite fallback_is_respond. unfold App.respond.
  rewrite (@strip_blank user_text Hb).
  rewrite (str_lower_ascii (Forall_nil is_ascii)).
  vm_compute. reflexivity.
Qed.

(** C3. When the normalized input is not a key: if some key has a
    similarity ratio of at least 0.6, the reply is the response stored
    under a key of greatest ratio (among keys of equal greatest ratio, the
    greatest in the order of strings); if every key stays below 0.6, the
    fuzzy step yields nothing and the reply is left to the keyword
    rules. *)
Theorem C3_fuzzy_match (mapping : dict str str) (user_text : str) :
  dict_contains mapping (str_lower (strip user_text)) = false ->
  ((exists k r,
      In k (dict_keys mapping)
      /\ Difflib.ratio k (str_lower (strip user_text)) = Ok r
      /\ (6 # 10 <= r)%Q) ->
   exists kbest rbest v,
     dict_lookup mapping kbest = Some v
     /\ Difflib.ratio kbest (str_lower (strip user_text)) = Ok rbest
     /\ (6 # 10 <= rbest)%Q
     /\ (forall k r,
           In k (dict_keys mapping) ->
           Difflib.ratio k (str_lower (strip user_text)) = Ok r ->
           (r <= rbest)%Q
           /\ ((r == rbest)%Q -> k = kbest \/ str_gtb kbest k = true))
     /\ App.respond str_lower mapping user_text = Ok v)
  /\ ((forall k r,
         In k (dict_keys mapping) ->
         Difflib.ratio k (str_lower (strip user_text)) = Ok r ->
         (r < 6 # 10)%Q) ->
      Difflib.get_close_matches (str_lower (strip user_text))
                                (dict_keys mapping) (6 # 10) = Ok []
      /\ App.respond str_lower mapping user_text
         = Ok (App.keyword_reply mapping (str_lower (strip user_text)))).
Proof.
  set (key := str_lower (strip user_text)).
  intros Hnot. unfold dict_contains in Hnot.
  assert (Hnone : dict_lookup mapping key = None)
    by (destruct (dict_lookup mapping key); [discriminate | reflexivity]).
  split.
  - intros [k0 [r0 [Hk0 [Hr0 Hc0]]]].
    apply ratio_Ok in Hr0. subst r0.
    destruct (nlargest1_spec (scored key (6 # 10) (dict_keys mapping)))
      as [[Hnil _] | [m [Hm [Hin Hmax]]]].
    { assert (Hin0 : In (similarity k0 key, k0)
                        (scored key (6 # 10) (dict_keys mapping))).
      { apply scored_In. simpl. split; [exact Hk0 |].
        split; [apply Qle_bool_iff; exact Hc0 | reflexivity]. }
      rewrite Hnil in Hin0. destruct Hin0. }
    destruct m as [rbest kbest].
    pose proof Hin as Hin'. apply scored_In in Hin'. simpl in Hin'.
    destruct Hin' as [Hkb [Hcb Hrb]].
    destruct (dict_lookup_keys _ _ Hkb) as [v Hv].
    exists kbest, rbest, v.
    split; [exact Hv |].
    split; [rewrite ratio_total; congruence |].
    split; [subst rbest; apply Qle_bool_iff; exact Hcb |].
    split.
    + intros k r Hk Hr. apply ratio_Ok in Hr. subst r.
      destruct (Qle_bool (6 # 10) (similarity k key)) eqn:E.
      * assert (Hink : In (similarity k key, k)
                          (scored key (6 # 10) (dict_keys mapping))).
        { apply scored_In. simpl. auto. }
        specialize (Hmax _ Hink). apply scored_gtb_false in Hmax.
        simpl in Hmax. destruct Hmax as [Hle Htie].
        split; [exact Hle |]. intros Heq. specialize (Htie Heq).
        destruct (list_eq_dec N.eq_dec k kbest) as [E' | Hne]; [auto |].
        right. destruct (@str_gtb_total k kbest Hne) as [H | H];
          [congruence | exact H].
      * assert (Hlt : ~ (6 # 10 <= similarity k key)%Q).
        { intros H. apply Qle_bool_iff in H. congruence. }
        apply Qle_bool_iff in Hcb. subst rbest.
        split; [lra | intros Heq; lra].
    + rewrite respond_unfold. fold key. rewrite Hnone, Hm.
      unfold dict_getitem. simpl. rewrite Hv. reflexivity.
  - intros Hlow. apply no_close_match; assumption.
Qed.

(** C5. When the normalized input is not a key and no key reaches a
    ratio of 0.6, an input containing "hi", "hello" or "hey" gets the
    table's entry for "hello", or the literal "Hello!" if the table has
    none.  The code looks for the word in the normalized input; for ASCII
    text the word may just as well be found in the input as typed.
    Nothing is assumed about "thank", "return" or "refund": the greeting
    rule is tried first. *)
Theorem C5_greeting_keyword (mapping : dict str str) (user_text : str) :
  dict_contains mapping (str_lower (strip user_text)) = false ->
  (forall k r,
     In k (dict_keys mapping) ->
     Difflib.ratio k (str_lower (strip user_text)) = Ok r ->
     (r < 6 # 10)%Q) ->
  (exists word,
     In word greetings
     /\ (contains word (str_lower (strip user_text)) = true
         \/ (Forall is_ascii user_text
             /\ contains word user_text = true))) ->
  App.respond str_lower mapping user_text
  = Ok (dict_get mapping (py "hello") (py "Hello!")).
Proof.
  intros Hnot Hlow [word [Hw Hc]].
  destruct (@no_close_match str_lower mapping user_text Hnot Hlow)
    as [_ ->].
  f_equal. unfold App.keyword_reply.
  replace (existsb _ [py "hi"; py "hello"; py "hey"]) with true;
    [reflexivity |].
  symmetry. apply existsb_exists. exists word. split; [exact Hw |].
  destruct Hc as [Hc | [Ha Hc]]; [exact Hc |].
  rewrite str_lower_ascii by (apply Forall_strip; exact Ha).
  apply contains_normalized; [| | exact Hc];
    destruct Hw as [<- | [<- | [<- | []]]]; vm_compute; reflexivity.
Qed.

(** C8. The reply depends on the table only as a set of entries, not on
    the order in which the dictionary lists them: the closest key is the
    greatest (ratio, key) pair, which is unique.  Equal arguments give
    equal results for the responders and for the classifiers. *)
Theorem C8_deterministic (mapping mapping' : dict str str)
    (user_text : str) :
  NoDup (dict_keys mapping) -> Permutation mapping mapping' ->
  Difflib.get_close_matches (str_lower (strip user_text))
                            (dict_keys mapping) (6 # 10)
  = Difflib.get_close_matches (str_lower (strip user_text))
                              (dict_keys mapping') (6 # 10)
  /\ App.respond str_lower mapping user_text
     = App.respond str_lower mapping' user_text
  /\ (forall user_text',
        user_text = user_text' ->
        App.fallback_get_response str_lower user_text
        = App.fallback_get_response str_lower user_text'
        /\ Main.fallback_get_response str_lower user_text
           = Main.fallback_get_response str_lower user_text'
        /\ App.analyze_sentiment polarity_scores user_text
           = App.analyze_sentiment polarity_scores user_text'
        /\ Main.get_sentiment_label polarity_scores user_text
           = Main.get_sentiment_label polarity_scores user_text').
Proof.
  intros Hnd Hp.
  assert (Hl : forall k, dict_lookup mapping' k = dict_lookup mapping k)
    by (intros k; symmetry; apply dict_lookup_perm; assumption).
  assert (Hk : Permutation (dict_keys mapping) (dict_keys mapping'))
    by (unfold dict_keys; apply Permutation_map; exact Hp).
  split; [| split].
  - rewrite !get_close_matches_spec by reflexivity.
    rewrite (nlargest1_scored_perm _ _ Hk). reflexivity.
  - rewrite !respond_unfold.
    rewrite <- (nlargest1_scored_perm _ _ Hk), Hl.
    destruct (dict_lookup mapping _); [reflexivity |].
    destruct (Difflib.nlargest1 _) as [| best rest].
    + unfold App.keyword_reply, dict_get. rewrite !Hl. reflexivity.
    + unfold dict_getitem. rewrite Hl. reflexivity.
  - intros user_text' <-. auto.
Qed.

(** C9. The keyword rules look for substrings: "shipping" is no key of
    the table, no key reaches a ratio of 0.6 with it, and none of its
    words is a greeting, yet it contains "hi" and gets the greeting. *)
Theorem C9_substring_greeting :
  dict_contains TABLE (py "shipping") = false
  /\ Difflib.get_close_matches (py "shipping") (dict_keys TABLE) (6 # 10)
     = Ok []
  /\ existsb (fun w => existsb (str_eqb w) greetings)
             (words (py "shipping")) = false
  /\ contains (py "hi") (py "shipping") = true
  /\ App.fallback_get_response str_lower (py "shipping")
     = Ok (py "Hello! Welcome to our textile and clothing store. How may I assist you today?").
Proof.
  repeat (split; [vm_compute; reflexivity |]).
  rewrite fallback_is_respond. unfold App.respond.
  rewrite str_lower_ascii
    by (apply forallb_is_ascii; vm_compute; reflexivity).
  vm_compute. reflexivity.
Qed.

(** C10, with the sizes the code has.  The table of [app.py] has 35
    pairs and the dictionary of [main.py] 7 entries; on "hey" the former
    answers with the greeting (keyword rule) and the latter with its own
    apology. *)
Theorem C10_responders_differ :
  responders_differ_with_sizes str_lower 35 7.
Proof.
  unfold responders_differ_with_sizes.
  split; [vm_compute; reflexivity |].
  split; [vm_compute; reflexivity |].
  exists (py "hey").
  exists (py "Hello! Welcome to our textile and clothing store. How may I assist you today?").
  unfold Main.fallback_get_response.
  rewrite fallback_is_respond. unfold App.respond.
  rewrite str_lower_ascii
    by (apply forallb_is_ascii; vm_compute; reflexivity).
  split; [vm_compute; reflexivity | vm_compute; discriminate].
Qed.

End Claims.

(* ------------------------------------------------------------------ *)
(** ** The claims at concrete inputs *)

(** A small table, as in the scenario of the specification. *)
Definition demo_table : dict str str :=
  [(py "hello", py "Hi there!"); (py "goodbye", py "Bye!")].

Definition demo_scores (text : str) : dict str Q :=
  [(py "neg", 0%Q); (py "neu", 1 # 2); (py "pos", 1 # 2);
   (py "compound", 1 # 2)].

(** The scenario of the specification, on that table. *)
Example scenario_replies :
  App.build_mapping ascii_lower
    [py "Hello"; py "Hi there!"; py "Goodbye"; py "Bye!"] = Ok demo_table
  /\ App.respond ascii_lower demo_table (py "hello") = Ok (py "Hi there!")
  /\ App.respond ascii_lower demo_table (py "HELLO") = Ok (py "Hi there!")
  /\ App.respond ascii_lower demo_table (py "hola")
     = Ok (py "Sorry — I don't have a precise answer for that yet. Could you rephrase or ask about fabrics, sizes, orders, or returns?").
Proof. repeat split; vm_compute; reflexivity. Qed.

Lemma ascii_lower_on_ascii :
  forall s, Forall is_ascii s -> ascii_lower s = ascii_lower s.
Proof. intros s _. reflexivity. Defined.

Lemma C1_exact_match_witness :
  App.fallback_get_response ascii_lower (py "  HeLLo ")
  = Ok (py "Hello! Welcome to our textile and clothing store. How may I assist you today?").
Proof.
  apply (@C1_exact_match ascii_lower ascii_lower_on_ascii (py "Hello")).
  - left. reflexivity.
  - exists (py "  "), (py "HeLLo"), (py " ").
    split; [vm_compute; reflexivity |].
    split; [vm_compute; repeat constructor |].
    split; [vm_compute; repeat constructor |].
    vm_compute. repeat constructor.
Defined.

(** C2 fails on the code: a list of three elements yields a table, not an
    error. *)
Lemma C2_odd_length_accepted :
  Nat.odd (List.length [py "Hello"; py "Hi there!"; py "Goodbye"]) = true
  /\ App.build_mapping ascii_lower [py "Hello"; py "Hi there!"; py "Goodbye"]
     = Ok [(py "hello", py "Hi there!")].
Proof. split; vm_compute; reflexivity. Qed.

Lemma C2_odd_length_truncated_witness :
  App.build_mapping ascii_lower [py "Hello"; py "Hi there!"; py "Goodbye"]
  = App.build_mapping ascii_lower [py "Hello"; py "Hi there!"].
Proof.
  exact (proj2 (@C2_odd_length_truncated ascii_lower
                  [py "Hello"; py "Hi there!"; py "Goodbye"] eq_refl)).
Defined.

Lemma C3_fuzzy_match_witness :
  exists kbest v,
    dict_lookup demo_table kbest = Some v
    /\ App.respond ascii_lower demo_table (py "helo") = Ok v.
Proof.
  destruct (@C3_fuzzy_match ascii_lower demo_table (py "helo") eq_refl)
    as [Hfuzzy _].
  destruct Hfuzzy as [kbest [rbest [v [Hv [_ [_ [_ Hr]]]]]]].
  - exists (py "hello"), (8 # 9)%Q.
    split; [left; reflexivity |].
    split; [vm_compute; reflexivity |].
    unfold Qle. simpl. lia.
  - exists kbest, v. split; assumption.
Defined.

Lemma C4_sentiment_thresholds_witness :
  App.label (App.analyze_sentiment demo_scores (py "great"))
  = py "Positive"
  /\ Main.get_sentiment_label demo_scores (py "great")
     = Ok (py "Positive", 1 # 2).
Proof.
  destruct (@C4_sentiment_thresholds demo_scores (py "great") (1 # 2)
              eq_refl) as [_ [Hpos _]].
  apply Hpos. unfold Qle. simpl. lia.
Defined.

Lemma C5_greeting_keyword_witness :
  App.respond ascii_lower demo_table (py "shipping") = Ok (py "Hi there!").
Proof.
  apply (@C5_greeting_keyword ascii_lower ascii_lower_on_ascii demo_table
           (py "shipping")).
  - reflexivity.
  - intros k r [<- | [<- | []]] H; vm_compute in H;
      injection H as <-; unfold Qlt; simpl; lia.
  - exists (py "hi"). split; [left; reflexivity |].
    left. vm_compute. reflexivity.
Defined.

Lemma C6_total_nonempty_witness :
  exists reply,
    App.fallback_get_response ascii_lower (py "") = Ok reply
    /\ reply <> [].
Proof.
  exact (@C6_total_nonempty ascii_lower ascii_lower_on_ascii (py "")).
Defined.

Lemma C7_blank_input_witness :
  App.fallback_get_response ascii_lower [32; 9; 10]%N
  = Ok (py "Sorry — I don't have a precise answer for that yet. Could you rephrase or ask about fabrics, sizes, orders, or returns?").
Proof.
  apply (@C7_blank_input ascii_lower ascii_lower_on_ascii).
  repeat constructor.
Defined.

Lemma C8_deterministic_witness :
  App.respond ascii_lower demo_table (py "helo")
  = App.respond ascii_lower
      [(py "goodbye", py "Bye!"); (py "hello", py "Hi there!")] (py "helo").
Proof.
  refine (proj1 (proj2 (@C8_deterministic ascii_lower demo_scores demo_table
                          [(py "goodbye", py "Bye!");
                           (py "hello", py "Hi there!")]
                          (py "helo") _ _))).
  - vm_compute. constructor.
    + intros [H | []]. discriminate.
    + constructor; [intros [] | constructor].
  - apply perm_swap.
Defined.

Lemma C9_substring_greeting_witness :
  App.fallback_get_response ascii_lower (py "shipping")
  = Ok (py "Hello! Welcome to our textile and clothing store. How may I assist you today?").
Proof.
  exact (proj2 (proj2 (proj2 (proj2
           (@C9_substring_greeting ascii_lower ascii_lower_on_ascii))))).
Defined.

(** C10 fails on the count: the conversation list has 35 pairs, not 34. *)
Lemma C10_not_34_pairs : ~ responders_differ_with_sizes ascii_lower 34 7.
Proof. intros [Hsize _]. vm_compute in Hsize. discriminate. Qed.

Lemma C10_responders_differ_witness :
  responders_differ_with_sizes ascii_lower 35 7.
Proof.
  exact (@C10_responders_differ ascii_lower ascii_lower_on_ascii).
Defined.
